(** * PENNY Knowledge Core: fleet router and ontology reconciliation

    A shallow embedding of
      - [router/context.py]  (the active profile context),
      - [router/fleet.py]    (the fleet router: client lookup, retried
                              requests, health aggregation),
      - [tools/composite.py] (fuzzy name matching and [ensure_ontology]),
      - [docker/mock_heart.py] (the in-memory backend the fleet talks to),
    followed by the properties the specification states about them.

    Conventions.  A Python [str] is a [string] of 8-bit characters (names are
    taken to be ASCII, on which [str.lower] is the map below).  A Python
    [dict] whose iteration order is observed is an association list with
    the update-in-place-or-append discipline of [dict.__setitem__]; a dict
    that is only read by key is a [gmap].  Effects (the context variable,
    the HTTP clients, the backends, the log) are threaded through a state
    and exception monad over a [World]. *)

From Stdlib Require Import Ascii QArith Qpower Qminmax Lia Lqa Sorted.
From stdpp Require Import base strings list gmap.

Close Scope Q_scope.
Local Open Scope string_scope.
Local Open Scope list_scope.
Local Open Scope nat_scope.

(** ** Python string helpers *)

(** [str.lower] on ASCII. *)
Definition lower_ascii (c : ascii) : ascii :=
  let n := nat_of_ascii c in
  if bool_decide (65 ≤ n) && bool_decide (n ≤ 90) then ascii_of_nat (n + 32) else c.

Fixpoint lower (s : string) : string :=
  match s with
  | EmptyString => EmptyString
  | String c s' => String (lower_ascii c) (lower s')
  end.

(** Python truthiness of a [str]: the empty string is falsy. *)
Definition truthy (s : string) : bool := negb (String.eqb s "").

(** ** [difflib.SequenceMatcher(None, a, b).ratio()]

    [_fuzzy_match] delegates to the Python standard library.  The routine is
    not part of the repository; it is reproduced here after CPython's
    [Lib/difflib.py] so that similarities can be computed: [b2j] with the
    automatic purge of popular elements ([autojunk], for [len(b) >= 200]),
    [find_longest_match], the work-list of [get_matching_blocks] and
    [ratio = 2.0 * matches / (len(a) + len(b))].  No [isjunk] predicate is
    supplied by the caller, so the junk set is empty and the two
    junk-extension loops of [find_longest_match] never run. *)

Record Match := mkMatch { m_a : nat; m_b : nat; m_size : nat }.

(** [b2j[elt]] before the purge: the positions of [elt] in [b], ascending. *)
Fixpoint indices_from (elt : ascii) (b : list ascii) (i : nat) : list nat :=
  match b with
  | [] => []
  | x :: b' =>
      if decide (x = elt) then i :: indices_from elt b' (S i)
      else indices_from elt b' (S i)
  end.

(** [n >= 200 and len(idxs) > n // 100 + 1] *)
Definition popular (b : list ascii) (elt : ascii) : bool :=
  bool_decide (200 ≤ length b)
  && bool_decide (length b / 100 + 1 < length (indices_from elt b 0)).

(** [b2j.get(elt, [])] after [__chain_b]. *)
Definition b2j_get (b : list ascii) (elt : ascii) : list nat :=
  if popular b elt then [] else indices_from elt b 0.

(** [j2len.get(j - 1, 0)]: the key [-1] is never present. *)
Definition j2len_get (j2len : gmap nat nat) (j : nat) : nat :=
  match j with
  | 0 => 0
  | S j' => default 0 (j2len !! j')
  end.

(** The inner loop [for j in b2j.get(a[i], nothing)], with its [continue]
    and [break].  [i - k + 1] is written [i + 1 - k] (natural numbers). *)
Fixpoint scan_row (j2len : gmap nat nat) (blo bhi i : nat) (js : list nat)
    (newj2len : gmap nat nat) (best : Match) : gmap nat nat * Match :=
  match js with
  | [] => (newj2len, best)
  | j :: js' =>
      if bool_decide (j < blo) then scan_row j2len blo bhi i js' newj2len best
      else if bool_decide (bhi ≤ j) then (newj2len, best)
      else
        let k := j2len_get j2len j + 1 in
        let best' :=
          if bool_decide (m_size best < k)
          then mkMatch (i + 1 - k) (j + 1 - k) k else best in
        scan_row j2len blo bhi i js' (<[j:=k]> newj2len) best'
  end.

(** The outer loop [for i in range(alo, ahi)]. *)
Fixpoint scan_rows (a b : list ascii) (blo bhi : nat) (rows : list nat)
    (j2len : gmap nat nat) (best : Match) : Match :=
  match rows with
  | [] => best
  | i :: rows' =>
      let js := match a !! i with Some x => b2j_get b x | None => [] end in
      let '(newj2len, best') := scan_row j2len blo bhi i js ∅ best in
      scan_rows a b blo bhi rows' newj2len best'
  end.

Definition same_elt (a b : list ascii) (i j : nat) : bool :=
  match a !! i, b !! j with
  | Some x, Some y => bool_decide (x = y)
  | _, _ => false
  end.

(** [while besti > alo and bestj > blo and a[besti-1] == b[bestj-1]] *)
Fixpoint extend_left (a b : list ascii) (alo blo fuel : nat) (m : Match) : Match :=
  match fuel with
  | 0 => m
  | S fuel' =>
      if bool_decide (alo < m_a m) && bool_decide (blo < m_b m)
         && same_elt a b (m_a m - 1) (m_b m - 1)
      then extend_left a b alo blo fuel'
             (mkMatch (m_a m - 1) (m_b m - 1) (m_size m + 1))
      else m
  end.

(** [while besti+bestsize < ahi and bestj+bestsize < bhi and
     a[besti+bestsize] == b[bestj+bestsize]] *)
Fixpoint extend_right (a b : list ascii) (ahi bhi fuel : nat) (m : Match) : Match :=
  match fuel with
  | 0 => m
  | S fuel' =>
      if bool_decide (m_a m + m_size m < ahi) && bool_decide (m_b m + m_size m < bhi)
         && same_elt a b (m_a m + m_size m) (m_b m + m_size m)
      then extend_right a b ahi bhi fuel' (mkMatch (m_a m) (m_b m) (m_size m + 1))
      else m
  end.

(** The first loop runs at most [besti] times and the second at most
    [ahi - (besti + bestsize)] times, which is the fuel they are given. *)
Definition find_longest_match (a b : list ascii) (alo ahi blo bhi : nat) : Match :=
  let best := scan_rows a b blo bhi (seq alo (ahi - alo)) ∅ (mkMatch alo blo 0) in
  let best := extend_left a b alo blo (m_a best) best in
  extend_right a b ahi bhi (ahi - (m_a best + m_size best)) best.

(** The [while queue:] loop of [get_matching_blocks]; [queue.pop()] takes the
    entry pushed last, which is the head here. *)
Fixpoint matching_blocks (a b : list ascii) (fuel : nat)
    (queue : list (nat * nat * nat * nat)) (blocks : list Match) : list Match :=
  match fuel with
  | 0 => blocks
  | S fuel' =>
      match queue with
      | [] => blocks
      | (alo, ahi, blo, bhi) :: queue' =>
          let x := find_longest_match a b alo ahi blo bhi in
          let i := m_a x in
          let j := m_b x in
          let k := m_size x in
          if bool_decide (k = 0) then matching_blocks a b fuel' queue' blocks
          else
            let q1 :=
              if bool_decide (alo < i) && bool_decide (blo < j)
              then (alo, i, blo, j) :: queue' else queue' in
            let q2 :=
              if bool_decide (i + k < ahi) && bool_decide (j + k < bhi)
              then (i + k, ahi, j + k, bhi) :: q1 else q1 in
            matching_blocks a b fuel' q2 (blocks ++ [x])
      end
  end.

(** Every iteration removes a range and pushes at most two disjoint strict
    sub-ranges of it, so [2 * len(a) + 1] iterations empty the queue.  The
    sort and the merge of adjacent blocks that follow in the library leave
    the sum of the sizes unchanged. *)
Definition get_matching_blocks (a b : list ascii) : list Match :=
  matching_blocks a b (2 * length a + 1) [(0, length a, 0, length b)] [].

Definition matches (a b : list ascii) : nat :=
  sum_list (m_size <$> get_matching_blocks a b).

(** [_calculate_ratio(matches, length)].  The library returns a binary
    float; the exact quotient is kept here.  Against the threshold 0.85 the
    two agree for all names shorter than 10^14 characters (the quotient is
    a fraction with denominator [length], hence either at least 17/20 or
    below it by at least [1 / (20 * length)]). *)
Definition ratio (a b : string) : Q :=
  let la := String.list_ascii_of_string a in
  let lb := String.list_ascii_of_string b in
  let len := length la + length lb in
  if bool_decide (len = 0) then 1%Q
  else (Z.of_nat (2 * matches la lb) # Pos.of_nat len)%Q.

(** ** [tools/composite.py]: name matching *)

Definition FUZZY_MATCH_THRESHOLD : Q := (85 # 100)%Q.

Definition _fuzzy_match (name1 name2 : string) : Q :=
  ratio (lower name1) (lower name2).

(** [_fuzzy_match(name, x.name) >= FUZZY_MATCH_THRESHOLD] *)
Definition similar (name1 name2 : string) : bool :=
  Qle_bool FUZZY_MATCH_THRESHOLD (_fuzzy_match name1 name2).

(** ** [schemas/manifest.py], [schemas/anytype.py], [schemas/tools.py] *)

Record SelectOption := mkSelectOption {
  opt_name : string;
  opt_color : option string;
}.

(** A validated [RelationDefinition]: [model_post_init] has filled [key]. *)
Record RelationDefinition := mkRelationDefinition {
  rd_name : string;
  rd_key : string;
  rd_format : string;
  rd_description : option string;
  rd_max_count : nat;
  rd_select_options : list SelectOption;
}.

Record TypeDefinition := mkTypeDefinition {
  td_name : string;
  td_key : string;
  td_description : option string;
  td_icon : option string;
  td_layout : string;
  td_relations : list string;
}.

Record OntologyManifest := mkOntologyManifest {
  mf_name : string;
  mf_version : string;
  mf_relations : list RelationDefinition;
  mf_types : list TypeDefinition;
}.

(** [self.name.lower().replace(" ", "_").replace("-", "_")] *)
Fixpoint replace_char (old new : ascii) (s : string) : string :=
  match s with
  | EmptyString => EmptyString
  | String c s' =>
      String (if decide (c = old) then new else c) (replace_char old new s')
  end.

Definition generate_key (key : option string) (name : string) : string :=
  match key with
  | Some k => if truthy k then k else replace_char "-" "_" (replace_char " " "_" (lower name))
  | None => replace_char "-" "_" (replace_char " " "_" (lower name))
  end.

Record AnyTypeRelation := mkAnyTypeRelation {
  ar_id : string;
  ar_key : string;
  ar_name : string;
  ar_format : string;
  ar_description : option string;
}.

Record AnyTypeType := mkAnyTypeType {
  at_id : string;
  at_key : string;
  at_name : string;
  at_description : option string;
  at_icon : option string;
  at_layout : string;
}.

Record EnsureOntologyInput := mkEnsureOntologyInput {
  in_space_id : string;
  in_manifest : OntologyManifest;
  in_profile_name : option string;
  in_dry_run : bool;
}.

Record OntologyDiff := mkOntologyDiff {
  missing_relations : list string;
  missing_types : list string;
  existing_relations : list string;
  existing_types : list string;
}.

(** The f-string summaries, kept structured. *)
Inductive Message :=
  | WouldCreate (relations types : nat)   (* "Dry run: Would create {} relations and {} types" *)
  | Created (relations types : nat).      (* "Created {} relations and {} types" *)

Record EnsureOntologyOutput := mkEnsureOntologyOutput {
  created_relations : list string;
  created_types : list string;
  skipped_relations : list string;
  skipped_types : list string;
  diff : OntologyDiff;
  out_dry_run : bool;
  message : Message;
}.

(** ** The wire: requests, responses, exceptions *)

Inductive Method := GET | POST | PUT | DELETE.

(** The request paths used by the router's callers modelled here. *)
Inductive Path :=
  | Health                          (* "/v1/health" *)
  | Relations (space_id : string)   (* f"/v1/spaces/{space_id}/relations" *)
  | Types (space_id : string).      (* f"/v1/spaces/{space_id}/types" *)

(** The [json=payload] dictionaries; an absent key is [None]. *)
Record RelationPayload := mkRelationPayload {
  rp_name : string;
  rp_key : string;
  rp_format : string;
  rp_description : option string;
  rp_maxCount : option nat;
  rp_selectOptions : option (list (string * option string));
}.

Record TypePayload := mkTypePayload {
  tp_name : string;
  tp_key : string;
  tp_layout : string;
  tp_recommendedRelations : list string;
  tp_description : option string;
  tp_icon : option string;
}.

Inductive Json :=
  | NoBody
  | RelationBody (p : RelationPayload)
  | TypeBody (p : TypePayload).

(** The dictionaries stored and returned by the backend. *)
Record RelationRec := mkRelationRec {
  rr_id : string;
  rr_spaceId : string;
  rr_name : string;
  rr_key : string;
  rr_format : string;
  rr_description : option string;
  rr_maxCount : nat;
  rr_selectOptions : list (string * option string);
}.

Record TypeRec := mkTypeRec {
  tr_id : string;
  tr_spaceId : string;
  tr_name : string;
  tr_key : string;
  tr_layout : string;
  tr_description : option string;
  tr_icon : option string;
  tr_recommendedRelations : list string;
}.

Inductive Body :=
  | NoContent                                (* empty response content *)
  | EmptyObject                              (* {} *)
  | HealthBody (status version : string)     (* {"status": .., "version": ..} *)
  | RelationList (rs : list RelationRec)     (* {"relations": [..]} *)
  | TypeList (ts : list TypeRec)             (* {"types": [..]} *)
  | RelationObject (r : RelationRec)
  | TypeObject (t : TypeRec)
  | Detail (msg : string).                   (* {"detail": ..} *)

Record Response := mkResponse {
  status_code : nat;
  content : Body;
}.

Inductive Exn :=
  | ConnectError              (* httpx.ConnectError *)
  | TimeoutException          (* httpx.TimeoutException and its subclasses *)
  | TransportError            (* any other httpx transport failure *)
  | HTTPStatusError (status : nat)   (* raised by response.raise_for_status() *)
  | JSONDecodeError           (* response.json() on an empty content *)
  | ValueError (msg : string)
  | RuntimeError (msg : string).

(** Error statuses a backend answers with when it refuses a request. *)
Inductive ErrorStatus :=
  | BadRequest | Unauthorized | Forbidden | NotFound | Conflict
  | Unprocessable | TooManyRequests
  | InternalServerError | BadGateway | ServiceUnavailable | GatewayTimeout.

Definition status_of (s : ErrorStatus) : nat :=
  match s with
  | BadRequest => 400 | Unauthorized => 401 | Forbidden => 403
  | NotFound => 404 | Conflict => 409 | Unprocessable => 422
  | TooManyRequests => 429 | InternalServerError => 500
  | BadGateway => 502 | ServiceUnavailable => 503 | GatewayTimeout => 504
  end.

(** What happens to one request put on the wire towards a backend.  The
    script of a backend lists the fate of the coming requests in order; once
    it is used up every request is delivered. *)
Inductive Wire :=
  | Delivers                  (* the backend handles the request *)
  | ConnectFails              (* the connection cannot be established *)
  | TimesOut                  (* the request times out *)
  | Breaks                    (* the transport fails in another way *)
  | Refuses (s : ErrorStatus). (* the backend answers with an error status
                                  and does not perform the operation *)

(** ** [docker/mock_heart.py]: the backend *)

(** [d[k] = v] on an insertion-ordered dict. *)
Fixpoint dict_set {V : Type} (k : string) (v : V) (d : list (string * V))
    : list (string * V) :=
  match d with
  | [] => [(k, v)]
  | (k', v') :: d' =>
      if decide (k' = k) then (k, v) :: d' else (k', v') :: dict_set k v d'
  end.

(** One backend process: its module-level [relations] and [types]
    dictionaries, the stream of values [uuid.uuid4().hex[:12]] will return
    with the number already drawn, and the fate of the coming requests. *)
Record Heart := mkHeart {
  relations : list (string * RelationRec);
  types : list (string * TypeRec);
  uuid4_hex : nat → string;
  drawn : nat;
  wire : list Wire;
}.

Definition gen_id (prefix : string) (h : Heart) : string :=
  prefix +:+ uuid4_hex h (drawn h).

Definition list_relations (space_id : string) (h : Heart) : list RelationRec :=
  filter (λ r, rr_spaceId r = space_id) (snd <$> relations h).

Definition list_types (space_id : string) (h : Heart) : list TypeRec :=
  filter (λ t, tr_spaceId t = space_id) (snd <$> types h).

(** [request.key or request.name.lower().replace(" ", "_")] *)
Definition key_or_default (key name : string) : string :=
  if truthy key then key else replace_char " " "_" (lower name).

Definition create_relation (space_id : string) (request : RelationPayload)
    (h : Heart) : RelationRec * Heart :=
  let rel_id := gen_id "rel_" h in
  let rel := {|
    rr_id := rel_id;
    rr_spaceId := space_id;
    rr_name := rp_name request;
    rr_key := key_or_default (rp_key request) (rp_name request);
    rr_format := rp_format request;
    rr_description := rp_description request;
    rr_maxCount := default 0 (rp_maxCount request);
    rr_selectOptions := default [] (rp_selectOptions request) |} in
  (rel, {| relations := dict_set rel_id rel (relations h);
           types := types h;
           uuid4_hex := uuid4_hex h;
           drawn := S (drawn h);
           wire := wire h |}).

Definition create_type (space_id : string) (request : TypePayload)
    (h : Heart) : TypeRec * Heart :=
  let type_id := gen_id "type_" h in
  let typ := {|
    tr_id := type_id;
    tr_spaceId := space_id;
    tr_name := tp_name request;
    tr_key := key_or_default (tp_key request) (tp_name request);
    tr_layout := tp_layout request;
    tr_description := tp_description request;
    tr_icon := tp_icon request;
    tr_recommendedRelations := tp_recommendedRelations request |} in
  (typ, {| relations := relations h;
           types := dict_set type_id typ (types h);
           uuid4_hex := uuid4_hex h;
           drawn := S (drawn h);
           wire := wire h |}).

(** The routes of the application.  A method without a route on the path
    is answered 405 and a body that does not validate 422, as the web
    framework does. *)
Definition handle (m : Method) (p : Path) (body : Json) (h : Heart)
    : Response * Heart :=
  match m, p, body with
  | GET, Health, _ => (mkResponse 200 (HealthBody "healthy" "mock-1.0.0"), h)
  | GET, Relations s, _ => (mkResponse 200 (RelationList (list_relations s h)), h)
  | GET, Types s, _ => (mkResponse 200 (TypeList (list_types s h)), h)
  | POST, Relations s, RelationBody rq =>
      let '(rel, h') := create_relation s rq h in
      (mkResponse 200 (RelationObject rel), h')
  | POST, Types s, TypeBody rq =>
      let '(typ, h') := create_type s rq h in
      (mkResponse 200 (TypeObject typ), h')
  | POST, Relations _, _ | POST, Types _, _ =>
      (mkResponse 422 (Detail "Unprocessable Entity"), h)
  | _, _, _ => (mkResponse 405 (Detail "Method Not Allowed"), h)
  end.

(** ** The world: context variable, router, fleet and log *)

Record ProfileContext := mkProfileContext {
  ctx_profile_name : string;
  ctx_session_id : option string;
}.

(** What the program does that an observer can see, in order. *)
Inductive Event :=
  | Sent (profile : string) (m : Method) (p : Path) (body : Json)
      (* client.request puts a request on the wire *)
  | Received (profile : string) (m : Method) (p : Path) (status : nat)
      (* the response to it has arrived *)
  | Failed (profile : string) (m : Method) (p : Path) (e : Exn)
      (* the transport raised instead *)
  | Slept (seconds : Q)
      (* asyncio.sleep, also when called by the retry policy *)
  | Warned (msg : string) (fields : list (string * string)).
      (* logger.warning *)

Record World := mkWorld {
  _current_profile : option ProfileContext;  (* the ContextVar, default None *)
  default_profile : string;                  (* get_settings().default_profile *)
  _router : bool;                            (* primitive._router is not None *)
  _clients : list string;                    (* keys of FleetRouter._clients *)
  hearts : gmap string Heart;                (* the backend each client's
                                                base_url leads to, if one runs *)
  log : list Event;
}.

Definition set_current (c : option ProfileContext) (w : World) : World :=
  {| _current_profile := c; default_profile := default_profile w;
     _router := _router w; _clients := _clients w;
     hearts := hearts w; log := log w |}.

Definition set_clients (cs : list string) (w : World) : World :=
  {| _current_profile := _current_profile w; default_profile := default_profile w;
     _router := _router w; _clients := cs;
     hearts := hearts w; log := log w |}.

Definition set_heart (name : string) (h : Heart) (w : World) : World :=
  {| _current_profile := _current_profile w; default_profile := default_profile w;
     _router := _router w; _clients := _clients w;
     hearts := <[name := h]> (hearts w); log := log w |}.

Definition emit (e : Event) (w : World) : World :=
  {| _current_profile := _current_profile w; default_profile := default_profile w;
     _router := _router w; _clients := _clients w;
     hearts := hearts w; log := log w ++ [e] |}.

(** Computations: a state transformer that returns or raises. *)
Inductive Result (A : Type) :=
  | Ok (a : A)
  | Raise (e : Exn).
Arguments Ok {A} a.
Arguments Raise {A} e.

Definition M (A : Type) : Type := World → Result A * World.

#[global] Instance M_ret : MRet M := λ A a w, (Ok a, w).

#[global] Instance M_bind : MBind M := λ A B f c w,
  match c w with
  | (Ok a, w') => f a w'
  | (Raise e, w') => (Raise e, w')
  end.

Definition raise {A : Type} (e : Exn) : M A := λ w, (Raise e, w).

(** [try: c  except Exception as e: handler(e)] *)
Definition try_except {A : Type} (c : M A) (handler : Exn → M A) : M A := λ w,
  match c w with
  | (Ok a, w') => (Ok a, w')
  | (Raise e, w') => handler e w'
  end.

Definition record (e : Event) : M unit := λ w, (Ok (), emit e w).

Definition sleep (seconds : Q) : M unit := record (Slept seconds).

(** ** [router/context.py] *)

Definition get_current_profile : M ProfileContext := λ w,
  match _current_profile w with
  | None => (Ok (mkProfileContext (default_profile w) None), w)
  | Some ctx => (Ok ctx, w)
  end.

Definition valid_profiles : list string := ["personal"; "work"; "research"].

Definition set_current_profile (profile_name : string) (session_id : option string)
    : M ProfileContext := λ w,
  let name := lower profile_name in
  if bool_decide (name ∈ valid_profiles) then
    let ctx := mkProfileContext name session_id in
    (Ok ctx, set_current (Some ctx) w)
  else (Raise (ValueError ("Invalid profile: " +:+ profile_name)), w).

Definition reset_profile_context : M unit := λ w, (Ok (), set_current None w).

(** ** [router/fleet.py] *)

(** [Settings.get_fleet_config]: the three profiles, in this order. *)
Definition fleet_profiles : list string := ["personal"; "work"; "research"].

Definition _init_clients : M unit := λ w, (Ok (), set_clients fleet_profiles w).

Definition close : M unit := λ w, (Ok (), set_clients [] w).

(** [profile_name or get_current_profile().profile_name] *)
Definition or_current (profile_name : option string) : M string :=
  match profile_name with
  | Some p =>
      if truthy p then mret p
      else ctx ← get_current_profile; mret (ctx_profile_name ctx)
  | None => ctx ← get_current_profile; mret (ctx_profile_name ctx)
  end.

(** [_get_client]: a client is identified by its key in [_clients]. *)
Definition _get_client (profile_name : option string) : M string :=
  p ← or_current profile_name;
  let name := lower p in
  ((λ w, if bool_decide (name ∈ _clients w) then (Ok name, w)
         else (Raise (ValueError ("No client for profile: " +:+ name)), w))
   : M string).

Definition with_wire (ws : list Wire) (h : Heart) : Heart :=
  {| relations := relations h; types := types h; uuid4_hex := uuid4_hex h;
     drawn := drawn h; wire := ws |}.

(** One request on the wire towards the backend [h]: the next entry of the
    script decides what happens to it. *)
Definition transmit (m : Method) (p : Path) (body : Json) (h : Heart)
    : Result Response * Heart :=
  let deliver (ws : list Wire) :=
    let '(response, h') := handle m p body (with_wire ws h) in (Ok response, h') in
  match wire h with
  | [] => deliver []
  | Delivers :: ws => deliver ws
  | ConnectFails :: ws => (Raise ConnectError, with_wire ws h)
  | TimesOut :: ws => (Raise TimeoutException, with_wire ws h)
  | Breaks :: ws => (Raise TransportError, with_wire ws h)
  | Refuses s :: ws => (Ok (mkResponse (status_of s) NoContent), with_wire ws h)
  end.

Definition outcome_event (name : string) (m : Method) (p : Path)
    (r : Result Response) : Event :=
  match r with
  | Ok response => Received name m p (status_code response)
  | Raise e => Failed name m p e
  end.

(** [httpx.AsyncClient.request] of the client [name].  Where no backend
    runs behind the client the connection cannot be established. *)
Definition client_request (name : string) (m : Method) (p : Path) (body : Json)
    : M Response := λ w,
  let w := emit (Sent name m p body) w in
  match hearts w !! name with
  | None => (Raise ConnectError, emit (Failed name m p ConnectError) w)
  | Some h =>
      let '(r, h') := transmit m p body h in
      (r, emit (outcome_event name m p r) (set_heart name h' w))
  end.

(** [response.raise_for_status()] *)
Definition raise_for_status (response : Response) : M unit :=
  if bool_decide (200 ≤ status_code response) && bool_decide (status_code response ≤ 299)
  then mret ()
  else raise (HTTPStatusError (status_code response)).

(** The body of [FleetRouter.request], one attempt. *)
Definition request_once (m : Method) (p : Path) (profile_name : option string)
    (body : Json) : M Response :=
  client ← _get_client profile_name;
  profile ← or_current profile_name;
  response ← client_request client m p body;
  raise_for_status response;;
  mret response.

(** [retry_if_exception_type((httpx.ConnectError, httpx.TimeoutException))] *)
Definition retry_if_exception_type (e : Exn) : bool :=
  match e with
  | ConnectError | TimeoutException => true
  | _ => false
  end.

(** [wait_exponential(multiplier, min, max)] of the retry library, called
    with the number of the attempt that has just failed:
    [max(max(0, min), min(multiplier * 2 ** (attempt_number - 1), max))]. *)
Definition wait_exponential (multiplier min max : Q) (attempt_number : nat) : Q :=
  Qmax (Qmax 0 min)
    (Qmin (multiplier * Qpower 2 (Z.of_nat (attempt_number - 1))) max)%Q.

(** The loop of the [@retry] decorator with [reraise=True]: [left] is the
    number of attempts [stop_after_attempt] still allows after the current
    one. *)
Fixpoint retrying {A : Type} (wait : nat → Q) (fn : M A) (left attempt_number : nat)
    : M A := λ w,
  match fn w with
  | (Ok a, w') => (Ok a, w')
  | (Raise e, w') =>
      if retry_if_exception_type e then
        match left with
        | 0 => (Raise e, w')
        | S left' =>
            (sleep (wait attempt_number);;
             retrying wait fn left' (S attempt_number)) w'
        end
      else (Raise e, w')
  end.

(** [@retry(retry=.., stop=stop_after_attempt(n), wait=.., reraise=True)] *)
Definition retry {A : Type} (stop_after_attempt : nat) (wait : nat → Q) (fn : M A)
    : M A :=
  retrying wait fn (stop_after_attempt - 1) 1.

Definition request (m : Method) (p : Path) (profile_name : option string)
    (body : Json) : M Response :=
  retry 3 (wait_exponential (1 # 2) (1 # 2) 10)
    (request_once m p profile_name body).

Definition get (p : Path) (profile_name : option string) : M Response :=
  request GET p profile_name NoBody.

Definition post (p : Path) (profile_name : option string) (body : Json) : M Response :=
  request POST p profile_name body.

(** [response.json()] *)
Definition json (response : Response) : M Body :=
  match content response with
  | NoContent => raise JSONDecodeError
  | b => mret b
  end.

(** [list(self._clients.keys())] *)
Definition client_keys : M (list string) := λ w, (Ok (_clients w), w).

Inductive HealthEntry :=
  | Healthy (response : Body)      (* {"status": "healthy", "response": ..} *)
  | Unhealthy (error : Exn).       (* {"status": "unhealthy", "error": str(e)} *)

(** The loop [for name in profiles] of [health_check]. *)
Fixpoint check_profiles (profiles : list string) (results : gmap string HealthEntry)
    : M (gmap string HealthEntry) :=
  match profiles with
  | [] => mret results
  | name :: profiles' =>
      results' ← try_except
        (response ← get Health (Some name);
         body ← (match content response with
                 | NoContent => mret EmptyObject
                 | _ => json response
                 end);
         mret (<[name := Healthy body]> results))
        (λ e,
           record (Warned "Health check failed" [("profile", name)]);;
           mret (<[name := Unhealthy e]> results));
      check_profiles profiles' results'
  end.

Definition health_check (profile_name : option string)
    : M (gmap string HealthEntry) :=
  profiles ← (match profile_name with
              | Some p => if truthy p then mret [lower p] else client_keys
              | None => client_keys
              end);
  check_profiles profiles ∅.

Definition get_all_profiles_status : M (gmap string HealthEntry) :=
  health_check None.

(** ** [tools/primitive.py]: the global router *)

Definition set_router : M unit := λ w,
  (Ok (), {| _current_profile := _current_profile w;
             default_profile := default_profile w;
             _router := true; _clients := _clients w;
             hearts := hearts w; log := log w |}).

Definition get_router : M unit := λ w,
  if _router w then (Ok (), w)
  else (Raise (RuntimeError "Router not initialized. Call set_router() first."), w).

(** ** [tools/composite.py]: reconciliation *)

Fixpoint _find_matching_relation (name : string)
    (existing_relations : list AnyTypeRelation) : option AnyTypeRelation :=
  match existing_relations with
  | [] => None
  | rel :: rest =>
      if similar name (ar_name rel) then Some rel
      else _find_matching_relation name rest
  end.

Fixpoint _find_matching_type (name : string)
    (existing_types : list AnyTypeType) : option AnyTypeType :=
  match existing_types with
  | [] => None
  | typ :: rest =>
      if similar name (at_name typ) then Some typ
      else _find_matching_type name rest
  end.

(** [data.get("relations", [])], [data.get("types", [])], [data.get("id", "")] *)
Definition get_relations (data : Body) : list RelationRec :=
  match data with RelationList rs => rs | _ => [] end.

Definition get_types (data : Body) : list TypeRec :=
  match data with TypeList ts => ts | _ => [] end.

Definition get_id (data : Body) : string :=
  match data with
  | RelationObject r => rr_id r
  | TypeObject t => tr_id t
  | _ => ""
  end.

Definition as_relation (r : RelationRec) : AnyTypeRelation :=
  mkAnyTypeRelation (rr_id r) (rr_key r) (rr_name r) (rr_format r) (rr_description r).

Definition as_type (t : TypeRec) : AnyTypeType :=
  mkAnyTypeType (tr_id t) (tr_key t) (tr_name t) (tr_description t) (tr_icon t)
    (tr_layout t).

Definition _fetch_existing_relations (space_id : string) (profile_name : option string)
    : M (list AnyTypeRelation) :=
  response ← get (Relations space_id) profile_name;
  data ← json response;
  mret (as_relation <$> get_relations data).

Definition _fetch_existing_types (space_id : string) (profile_name : option string)
    : M (list AnyTypeType) :=
  response ← get (Types space_id) profile_name;
  data ← json response;
  mret (as_type <$> get_types data).

(** [if definition.description:] and the like: a key is set only for a
    truthy value. *)
Definition if_truthy (o : option string) : option string :=
  match o with
  | Some s => if truthy s then Some s else None
  | None => None
  end.

Definition relation_payload (definition : RelationDefinition) : RelationPayload :=
  {| rp_name := rd_name definition;
     rp_key := rd_key definition;
     rp_format := rd_format definition;
     rp_description := if_truthy (rd_description definition);
     rp_maxCount :=
       if bool_decide (rd_max_count definition = 0) then None
       else Some (rd_max_count definition);
     rp_selectOptions :=
       match rd_select_options definition with
       | [] => None
       | opts => Some ((λ opt, (opt_name opt, opt_color opt)) <$> opts)
       end |}.

Definition type_payload (definition : TypeDefinition) (relation_ids : list string)
    : TypePayload :=
  {| tp_name := td_name definition;
     tp_key := td_key definition;
     tp_layout := td_layout definition;
     tp_recommendedRelations := relation_ids;
     tp_description := if_truthy (td_description definition);
     tp_icon := if_truthy (td_icon definition) |}.

Definition _create_relation (space_id : string) (definition : RelationDefinition)
    (profile_name : option string) : M string :=
  response ← post (Relations space_id) profile_name
                (RelationBody (relation_payload definition));
  data ← json response;
  mret (get_id data).

Definition _create_type (space_id : string) (definition : TypeDefinition)
    (relation_ids : list string) (profile_name : option string) : M string :=
  response ← post (Types space_id) profile_name
                (TypeBody (type_payload definition relation_ids));
  data ← json response;
  mret (get_id data).

(** Step 2, [for rel_def in manifest.relations]. *)
Fixpoint diff_relations (defs : list RelationDefinition)
    (existing : list AnyTypeRelation)
    (missing : list RelationDefinition) (skipped : list string)
    (relation_name_to_id : gmap string string)
    : list RelationDefinition * list string * gmap string string :=
  match defs with
  | [] => (missing, skipped, relation_name_to_id)
  | rel_def :: defs' =>
      match _find_matching_relation (rd_name rel_def) existing with
      | Some found =>
          diff_relations defs' existing missing (skipped ++ [rd_name rel_def])
            (<[lower (rd_name rel_def) := ar_id found]> relation_name_to_id)
      | None =>
          diff_relations defs' existing (missing ++ [rel_def]) skipped
            relation_name_to_id
      end
  end.

(** Step 3, [for type_def in manifest.types]. *)
Fixpoint diff_types (defs : list TypeDefinition) (existing : list AnyTypeType)
    (missing : list TypeDefinition) (skipped : list string)
    : list TypeDefinition * list string :=
  match defs with
  | [] => (missing, skipped)
  | type_def :: defs' =>
      match _find_matching_type (td_name type_def) existing with
      | Some _ => diff_types defs' existing missing (skipped ++ [td_name type_def])
      | None => diff_types defs' existing (missing ++ [type_def]) skipped
      end
  end.

(** Step 4, [for rel_def in missing_relations]. *)
Fixpoint create_missing_relations (space_id : string) (profile_name : option string)
    (missing : list RelationDefinition)
    (relation_name_to_id : gmap string string) (created_relations : list string)
    : M (gmap string string * list string) :=
  match missing with
  | [] => mret (relation_name_to_id, created_relations)
  | rel_def :: missing' =>
      rel_id ← _create_relation space_id rel_def profile_name;
      sleep (5 # 100);;
      create_missing_relations space_id profile_name missing'
        (<[lower (rd_name rel_def) := rel_id]> relation_name_to_id)
        (created_relations ++ [rd_name rel_def])
  end.

(** Step 5, the inner loop [for rel_name in type_def.relations]:
    [relation_name_to_id.get(..)] followed by [if rel_id:]. *)
Fixpoint resolve_relations (type_name : string)
    (relation_name_to_id : gmap string string)
    (rel_names : list string) (relation_ids : list string) : M (list string) :=
  match rel_names with
  | [] => mret relation_ids
  | rel_name :: rel_names' =>
      let warn :=
        record (Warned "Relation not found for type"
                  [("type", type_name); ("relation", rel_name)]) in
      match relation_name_to_id !! lower rel_name with
      | Some rel_id =>
          if truthy rel_id then
            resolve_relations type_name relation_name_to_id rel_names'
              (relation_ids ++ [rel_id])
          else
            warn;;
            resolve_relations type_name relation_name_to_id rel_names' relation_ids
      | None =>
          warn;;
          resolve_relations type_name relation_name_to_id rel_names' relation_ids
      end
  end.

(** Step 5, [for type_def in missing_types]. *)
Fixpoint create_missing_types (space_id : string) (profile_name : option string)
    (relation_name_to_id : gmap string string)
    (missing : list TypeDefinition) (created_types : list string)
    : M (list string) :=
  match missing with
  | [] => mret created_types
  | type_def :: missing' =>
      relation_ids ← resolve_relations (td_name type_def) relation_name_to_id
                       (td_relations type_def) [];
      _create_type space_id type_def relation_ids profile_name;;
      sleep (5 # 100);;
      create_missing_types space_id profile_name relation_name_to_id missing'
        (created_types ++ [td_name type_def])
  end.

Definition ensure_ontology (input : EnsureOntologyInput) : M EnsureOntologyOutput :=
  get_router;;
  let manifest := in_manifest input in
  (* Step 1: fetch existing schema *)
  existing_rels ← _fetch_existing_relations (in_space_id input) (in_profile_name input);
  existing_typs ← _fetch_existing_types (in_space_id input) (in_profile_name input);
  (* Steps 2 and 3: diff *)
  let '(missing_rels, skipped_rels, relation_name_to_id) :=
    diff_relations (mf_relations manifest) existing_rels [] [] ∅ in
  let '(missing_typs, skipped_typs) :=
    diff_types (mf_types manifest) existing_typs [] [] in
  let the_diff :=
    mkOntologyDiff (rd_name <$> missing_rels) (td_name <$> missing_typs)
      skipped_rels skipped_typs in
  if in_dry_run input then
    mret (mkEnsureOntologyOutput [] [] skipped_rels skipped_typs the_diff true
            (WouldCreate (length missing_rels) (length missing_typs)))
  else
    (* Step 4: create missing relations *)
    '(relation_name_to_id, created_rels) ←
      create_missing_relations (in_space_id input) (in_profile_name input)
        missing_rels relation_name_to_id [];
    (* Step 5: create missing types *)
    created_typs ←
      create_missing_types (in_space_id input) (in_profile_name input)
        relation_name_to_id missing_typs [];
    mret (mkEnsureOntologyOutput created_rels created_typs skipped_rels skipped_typs
            the_diff false (Created (length created_rels) (length created_typs))).

(** ** More of Python's [str] *)

(** [str.upper] on ASCII. *)
Definition upper_ascii (c : ascii) : ascii :=
  let n := nat_of_ascii c in
  if bool_decide (97 ≤ n) && bool_decide (n ≤ 122) then ascii_of_nat (n - 32) else c.

Fixpoint upper (s : string) : string :=
  match s with
  | EmptyString => EmptyString
  | String c s' => String (upper_ascii c) (upper s')
  end.

(** [needle in haystack] *)
Fixpoint contains (needle haystack : string) : bool :=
  String.prefix needle haystack
  || match haystack with
     | EmptyString => false
     | String _ rest => contains needle rest
     end.

(** [str.isspace] of one ASCII character: tab to carriage return, the four
    separators [0x1c] to [0x1f] and the space. *)
Definition isspace (c : ascii) : bool :=
  let n := nat_of_ascii c in
  (bool_decide (9 ≤ n) && bool_decide (n ≤ 13))
  || (bool_decide (28 ≤ n) && bool_decide (n ≤ 32)).

Fixpoint lstrip (s : string) : string :=
  match s with
  | EmptyString => EmptyString
  | String c s' => if isspace c then lstrip s' else s
  end.

Fixpoint rstrip (s : string) : string :=
  match s with
  | EmptyString => EmptyString
  | String c s' =>
      match rstrip s' with
      | EmptyString => if isspace c then EmptyString else String c EmptyString
      | r => String c r
      end
  end.

(** [s.strip()] *)
Definition strip (s : string) : string := rstrip (lstrip s).

(** [s.split(sep)] for a separator of one character: never an empty list. *)
Fixpoint split (sep : ascii) (s : string) : list string :=
  match s with
  | EmptyString => [EmptyString]
  | String c s' =>
      if decide (c = sep) then EmptyString :: split sep s'
      else match split sep s' with
           | line :: lines => String c line :: lines
           | [] => [String c EmptyString]
           end
  end.

(** ** [config.py] *)

Record FleetProfile := mkFleetProfile {
  fp_name : string;
  fp_url : string;
  fp_mnemonic : option string;
}.

Record Settings := mkSettings {
  gateway_host : string;
  gateway_port : Z;
  log_level : string;
  debug : bool;
  reload : bool;
  fleet_personal_url : string;
  fleet_work_url : string;
  fleet_research_url : string;
  cfg_default_profile : string;
  mnemonic_personal : option string;
  mnemonic_work : option string;
  mnemonic_research : option string;
  redis_url : string;
  anytype_timeout_ms : Z;
  anytype_max_retries : Z;
  anytype_retry_delay_ms : Z;
  anytype_batch_delay_ms : Z;
}.

Definition valid_levels : list string :=
  ["DEBUG"; "INFO"; "WARNING"; "ERROR"; "CRITICAL"].

(** The two [field_validator]s of [Settings]. *)
Definition validate_log_level (v : string) : Result string :=
  let upper_v := upper v in
  if bool_decide (upper_v ∈ valid_levels) then Ok upper_v
  else Raise (ValueError ("Invalid log level: " +:+ v)).

Definition validate_default_profile (v : string) : Result string :=
  let lower_v := lower v in
  if bool_decide (lower_v ∈ ["personal"; "work"; "research"]) then Ok lower_v
  else Raise (ValueError ("Invalid profile: " +:+ v)).

(** [dict[key]] and [key in dict] on an insertion-ordered dict. *)
Fixpoint dict_get {V : Type} (k : string) (d : list (string * V)) : option V :=
  match d with
  | [] => None
  | (k', v) :: d' => if decide (k' = k) then Some v else dict_get k d'
  end.

Definition get_fleet_config (self : Settings) : list (string * FleetProfile) :=
  [("personal", mkFleetProfile "personal" (fleet_personal_url self) (mnemonic_personal self));
   ("work", mkFleetProfile "work" (fleet_work_url self) (mnemonic_work self));
   ("research",
    mkFleetProfile "research" (fleet_research_url self) (mnemonic_research self))].

Definition get_profile_url (self : Settings) (profile_name : option string)
    : Result string :=
  let name :=
    lower (match profile_name with
           | Some p => if truthy p then p else cfg_default_profile self
           | None => cfg_default_profile self
           end) in
  match dict_get name (get_fleet_config self) with
  | Some profile => Ok (fp_url profile)
  | None => Raise (ValueError ("Unknown profile: " +:+ name))
  end.

(** ** [tools/profile.py] *)

Record SwitchProfileOutput := mkSwitchProfileOutput {
  previous_profile : string;
  current_profile : string;
  switch_message : string;
}.

(** [switch_profile(SwitchProfileInput(profile_name=..))] *)
Definition switch_profile (profile_name : string) : M SwitchProfileOutput :=
  ctx ← get_current_profile;
  let previous := ctx_profile_name ctx in
  new_context ← set_current_profile profile_name None;
  mret (mkSwitchProfileOutput previous (ctx_profile_name new_context)
          ("Switched from '" +:+ previous +:+ "' to '"
           +:+ ctx_profile_name new_context +:+ "' profile")).

(** ** [server/main.py]: the life of the router *)

(** [lifespan] up to its [yield], and after it. *)
Definition lifespan_startup : M unit :=
  _init_clients;;
  set_router.

Definition lifespan_shutdown : M unit := close.

(** ** [router/fleet.py]: the remaining verbs *)

Definition put (p : Path) (profile_name : option string) (body : Json) : M Response :=
  request PUT p profile_name body.

Definition delete (p : Path) (profile_name : option string) : M Response :=
  request DELETE p profile_name NoBody.

(** ** [schemas/manifest.py]: lookups by name *)

(** [for rel in self.relations: if rel.name.lower() == name_lower: return rel] *)
Definition get_relation_by_name (self : OntologyManifest) (name : string)
    : option RelationDefinition :=
  let name_lower := lower name in
  List.find (λ rel, bool_decide (lower (rd_name rel) = name_lower)) (mf_relations self).

Definition get_type_by_name (self : OntologyManifest) (name : string)
    : option TypeDefinition :=
  let name_lower := lower name in
  List.find (λ typ, bool_decide (lower (td_name typ) = name_lower)) (mf_types self).

(** ** [docker/mock_heart.py]: spaces, objects, search and statistics *)

(** JSON values, for the free-form [details] of an object and for the
    fields of a log event. *)
#[warnings="-register-all"]
Inductive Value :=
  | Null
  | Boolean (b : bool)
  | Number (n : Z)
  | Text (s : string)
  | Array (vs : list Value)
  | Mapping (d : list (string * Value)).

Record SpaceRec := mkSpaceRec {
  sr_id : string;
  sr_name : string;
  sr_icon : option string;
  sr_isPersonal : bool;
  sr_createdAt : string;
}.

Record ObjectRec := mkObjectRec {
  or_id : string;
  or_spaceId : string;
  or_typeId : string;
  or_name : string;
  or_icon : option string;
  or_details : list (string * Value);
  or_createdAt : string;
  or_updatedAt : string;
}.

(** The whole backend process: the schema dictionaries with the identifier
    stream, the [spaces] and [objects] dictionaries, and the readings
    [datetime.now(timezone.utc).isoformat()] will return with the number
    already taken. *)
Record Graph := mkGraph {
  schema : Heart;
  spaces : list (string * SpaceRec);
  objects : list (string * ObjectRec);
  isoformat_now : nat → string;
  readings : nat;
}.

(** The backend after one identifier has been generated. *)
Definition drew (h : Heart) : Heart :=
  {| relations := relations h; types := types h; uuid4_hex := uuid4_hex h;
     drawn := S (drawn h); wire := wire h |}.

Record CreateSpaceRequest := mkCreateSpaceRequest {
  csr_name : string;
  csr_icon : option string;
}.

Record CreateObjectRequest := mkCreateObjectRequest {
  cor_typeId : string;
  cor_name : string;
  cor_icon : option string;
  cor_details : list (string * Value);
}.

Definition list_spaces (g : Graph) : list SpaceRec := snd <$> spaces g.

Definition create_space (request : CreateSpaceRequest) (g : Graph)
    : SpaceRec * Graph :=
  let space_id := gen_id "space_" (schema g) in
  let space := {|
    sr_id := space_id;
    sr_name := csr_name request;
    sr_icon := csr_icon request;
    sr_isPersonal := false;
    sr_createdAt := isoformat_now g (readings g) |} in
  (space, {| schema := drew (schema g);
             spaces := dict_set space_id space (spaces g);
             objects := objects g;
             isoformat_now := isoformat_now g;
             readings := S (readings g) |}).

Definition list_objects (space_id : string) (g : Graph) : list ObjectRec :=
  filter (λ o, or_spaceId o = space_id) (snd <$> objects g).

Definition create_object (space_id : string) (request : CreateObjectRequest)
    (g : Graph) : ObjectRec * Graph :=
  let obj_id := gen_id "obj_" (schema g) in
  let obj := {|
    or_id := obj_id;
    or_spaceId := space_id;
    or_typeId := cor_typeId request;
    or_name := cor_name request;
    or_icon := cor_icon request;
    or_details := cor_details request;
    or_createdAt := isoformat_now g (readings g);
    or_updatedAt := isoformat_now g (S (readings g)) |} in
  (obj, {| schema := drew (schema g);
           spaces := spaces g;
           objects := dict_set obj_id obj (objects g);
           isoformat_now := isoformat_now g;
           readings := S (S (readings g)) |}).

(** [if spaceId and obj.get("spaceId") != spaceId: continue] *)
Definition filtered_out (wanted : option string) (actual : string) : bool :=
  match wanted with
  | Some s => truthy s && negb (String.eqb actual s)
  | None => false
  end.

(** The loop [for obj in objects.values()] of [search], with its [break]. *)
Fixpoint search_loop (objs : list ObjectRec) (query_lower : string) (limit : Z)
    (spaceId typeId : option string) (results : list ObjectRec) : list ObjectRec :=
  match objs with
  | [] => results
  | obj :: objs' =>
      if filtered_out spaceId (or_spaceId obj) then
        search_loop objs' query_lower limit spaceId typeId results
      else if filtered_out typeId (or_typeId obj) then
        search_loop objs' query_lower limit spaceId typeId results
      else if contains query_lower (lower (or_name obj)) then
        let results' := results ++ [obj] in
        if bool_decide (limit ≤ Z.of_nat (length results'))%Z then results'
        else search_loop objs' query_lower limit spaceId typeId results'
      else search_loop objs' query_lower limit spaceId typeId results
  end.

Record SearchBody := mkSearchBody {
  sb_objects : list ObjectRec;
  sb_total : nat;
  sb_hasMore : bool;
}.

Definition search (query : string) (limit : Z) (spaceId typeId : option string)
    (g : Graph) : SearchBody :=
  let results :=
    search_loop (snd <$> objects g) (lower query) limit spaceId typeId [] in
  mkSearchBody results (length results) false.

(** [objects_by_type[type_id] = objects_by_type.get(type_id, 0) + 1] *)
Fixpoint count_by_type (objs : list ObjectRec) (objects_by_type : list (string * nat))
    : list (string * nat) :=
  match objs with
  | [] => objects_by_type
  | obj :: objs' =>
      let type_id := or_typeId obj in
      count_by_type objs'
        (dict_set type_id (default 0 (dict_get type_id objects_by_type) + 1)
           objects_by_type)
  end.

Record StatsBody := mkStatsBody {
  totalObjects : nat;
  totalTypes : nat;
  totalRelations : nat;
  totalSpaces : nat;
  objectsByType : list (string * nat);
  storageBytes : Z;
}.

Definition get_stats (g : Graph) : StatsBody :=
  {| totalObjects := length (objects g);
     totalTypes := length (types (schema g));
     totalRelations := length (relations (schema g));
     totalSpaces := length (spaces g);
     objectsByType := count_by_type (snd <$> objects g) [];
     storageBytes := (1024 * 1024 * 10)%Z |}.

(** ** [logging.py]: the filter for sensitive data *)

Definition SENSITIVE_KEYS : list string :=
  ["mnemonic"; "mnemonic_personal"; "mnemonic_work"; "mnemonic_research";
   "auth_token"; "authorization"; "password"; "secret"; "api_key"].

(** [any(sensitive in key.lower() for sensitive in SENSITIVE_KEYS)] *)
Definition is_sensitive (key : string) : bool :=
  existsb (λ sensitive, contains sensitive (lower key)) SENSITIVE_KEYS.

Definition REDACTED : Value := Text "[REDACTED]".

(** The inner loop [for nested_key in list(event_dict[key].keys())]. *)
Definition filter_nested (d : list (string * Value)) : list (string * Value) :=
  (λ kv, if is_sensitive kv.1 then (kv.1, REDACTED) else kv) <$> d.

(** The processor; the logger and the method name are not used.  An
    assignment to a key that is present leaves the order of the dict as it
    is. *)
Definition filter_sensitive_data (event_dict : list (string * Value))
    : list (string * Value) :=
  (λ kv,
     if is_sensitive kv.1 then (kv.1, REDACTED)
     else match kv.2 with
          | Mapping d => (kv.1, Mapping (filter_nested d))
          | _ => kv
          end) <$> event_dict.

(** [add_service_context] *)
Definition add_service_context (event_dict : list (string * Value))
    : list (string * Value) :=
  dict_set "service" (Text "penny-knowledge-core") event_dict.

(** ** [tools/composite.py]: the choices of [smart_ingest] *)

(** The loop [for t in types_data.get("types", [])] that looks for the
    hinted type, or else a type named "note". *)
Fixpoint scan_types (type_hint : option string) (ts : list TypeRec)
    (target_type_id : option string) : option string :=
  match ts with
  | [] => target_type_id
  | t :: ts' =>
      if match type_hint with
         | Some hint => truthy hint && String.eqb (lower (tr_name t)) (lower hint)
         | None => false
         end
      then Some (tr_id t)
      else if String.eqb (lower (tr_name t)) "note"
      then scan_types type_hint ts' (Some (tr_id t))
      else scan_types type_hint ts' target_type_id
  end.

(** [target_type_id] when the object is about to be created: after the loop
    and the fallback on the first type of the list. *)
Definition target_type_id (type_hint : option string) (types_list : list TypeRec)
    : option string :=
  match scan_types type_hint types_list None with
  | Some id =>
      if truthy id then Some id
      else match types_list with t :: _ => Some (tr_id t) | [] => Some id end
  | None => match types_list with t :: _ => Some (tr_id t) | [] => None end
  end.

(** [if target_type_id:] - an object is created. *)
Definition creates_object (target : option string) : bool :=
  match target with Some id => truthy id | None => false end.

(** [lines = input.content.strip().split("\n")] and
    [title = lines[0][:100] if lines else "Ingested Content"] *)
Definition title (content : string) : string :=
  match split "010" (strip content) with
  | line :: _ => String.substring 0 100 line
  | [] => "Ingested Content"
  end.

(** * Vocabulary of the properties *)

(** The policy handed to [@retry] by [FleetRouter.request]. *)
Definition backoff : nat → Q := wait_exponential (1 # 2) (1 # 2) 10.

(** [response.is_success] *)
Definition is_success (response : Response) : bool :=
  bool_decide (200 ≤ status_code response) && bool_decide (status_code response ≤ 299).

(** The effect of [raise_for_status] on the outcome of a transmission. *)
Definition checked (r : Result Response) : Result Response :=
  match r with
  | Ok response =>
      if is_success response then Ok response
      else Raise (HTTPStatusError (status_code response))
  | Raise e => Raise e
  end.

(** The first transmission of an exchange. *)
Definition first_transmission (m : Method) (p : Path) (body : Json)
    (oh : option Heart) : Result Response * option Heart :=
  match oh with
  | None => (Raise ConnectError, None)
  | Some h => let '(r, h') := transmit m p body h in (r, Some h')
  end.

(** What a retried request does to the one backend it talks to: the result,
    the backend afterwards and the events logged. *)
Fixpoint exchange (wait : nat → Q) (name : string) (m : Method) (p : Path)
    (body : Json) (left attempt_number : nat) (oh : option Heart)
    : Result Response * option Heart * list Event :=
  let '(r0, oh') := first_transmission m p body oh in
  let evs := [Sent name m p body; outcome_event name m p r0] in
  match checked r0 with
  | Ok response => (Ok response, oh', evs)
  | Raise e =>
      if retry_if_exception_type e then
        match left with
        | 0 => (Raise e, oh', evs)
        | S left' =>
            let '(r, oh'', evs') :=
              exchange wait name m p body left' (S attempt_number) oh' in
            (r, oh'', evs ++ Slept (wait attempt_number) :: evs')
        end
      else (Raise e, oh', evs)
  end.

(** A world after a backend has moved on and events have been logged. *)
Definition moved (name : string) (oh : option Heart) (evs : list Event) (w : World)
    : World :=
  {| _current_profile := _current_profile w; default_profile := default_profile w;
     _router := _router w; _clients := _clients w;
     hearts := match oh with Some h => <[name := h]> (hearts w) | None => hearts w end;
     log := log w ++ evs |}.

(** The events a computation has added to the log. *)
Definition new_events (w w' : World) : list Event :=
  drop (length (log w)) (log w').

(** The waits and the number of transmissions recorded in a log. *)
Definition sleeps (evs : list Event) : list Q :=
  omap (λ e, match e with Slept q => Some q | _ => None end) evs.

Definition is_sent (e : Event) : bool :=
  match e with Sent _ _ _ _ => true | _ => false end.

Definition attempts (evs : list Event) : nat :=
  length (List.filter is_sent evs).

(** A backend with empty dictionaries whose identifiers are "a", "aa", ... *)
Fixpoint letters (n : nat) : string :=
  match n with
  | 0 => ""
  | S n' => String "a" (letters n')
  end.

Definition empty_heart (script : list Wire) : Heart :=
  mkHeart [] [] (λ n, letters (S n)) 0 script.

(** A world after start-up: router installed, three clients, three idle
    backends, no context set. *)
Definition started_world : World :=
  mkWorld None "personal" true fleet_profiles
    (list_to_map ((λ name, (name, empty_heart [])) <$> fleet_profiles)) [].

(** The ends of the transmissions recorded in a log, and those after which
    the retry policy asks for another attempt. *)
Definition is_completion (e : Event) : bool :=
  match e with Received _ _ _ _ | Failed _ _ _ _ => true | _ => false end.

Definition completions (evs : list Event) : list Event :=
  List.filter is_completion evs.

Definition connect_failure_or_timeout (e : Event) : Prop :=
  match e with
  | Failed _ _ _ ConnectError | Failed _ _ _ TimeoutException => True
  | _ => False
  end.

(** What [request] returns after a transmission that ended with [e]. *)
Definition surfaced (e : Event) (r : Result Response) : Prop :=
  match e with
  | Failed _ _ _ x => r = Raise x
  | Received _ _ _ status =>
      if bool_decide (200 ≤ status ≤ 299)
      then ∃ response, r = Ok response ∧ status_code response = status
      else r = Raise (HTTPStatusError status)
  | _ => False
  end.

(** The properties of the log of one retried request. *)
Definition policy (wait : nat → Q) (left k : nat) (r : Result Response)
    (evs : list Event) : Prop :=
  1 ≤ attempts evs ≤ S left
  ∧ length (completions evs) = attempts evs
  ∧ (∀ i e, completions evs !! i = Some e → S i < attempts evs →
            connect_failure_or_timeout e)
  ∧ (∀ i e, completions evs !! i = Some e → connect_failure_or_timeout e →
            i < left → S i < attempts evs)
  ∧ (∀ e, last (completions evs) = Some e → surfaced e r)
  ∧ sleeps evs = wait <$> seq k (attempts evs - 1).


(** The started world with the backend of one profile replaced. *)
Definition world_with (name : string) (h : Heart) : World :=
  set_heart name h started_world.

(** The keys [_init_clients] installs are distinct, non-empty and in lower
    case. *)
Definition usable_keys (cs : list string) : Prop :=
  NoDup cs ∧ Forall (λ n, lower n = n ∧ truthy n = true) cs.

(** The entry [health_check] reports for a profile, as a function of the
    backend behind that profile alone. *)
Definition probe (name : string) (oh : option Heart) : HealthEntry :=
  match (exchange backoff name GET Health NoBody 2 1 oh).1.1 with
  | Ok response =>
      Healthy (match content response with NoContent => EmptyObject | b => b end)
  | Raise e => Unhealthy e
  end.

(** Events of a relation creation and of a type creation: the request put
    on the wire and its completion. *)
Definition creates_relation (e : Event) : Prop :=
  match e with
  | Sent _ POST (Relations _) _ | Received _ POST (Relations _) _
  | Failed _ POST (Relations _) _ => True
  | _ => False
  end.

Definition creates_type (e : Event) : Prop :=
  match e with
  | Sent _ POST (Types _) _ | Received _ POST (Types _) _
  | Failed _ POST (Types _) _ => True
  | _ => False
  end.


(** Wire events concern the method [m] and the path [p]; waits pass. *)
Definition about (m : Method) (p : Path) (e : Event) : Prop :=
  match e with
  | Sent _ m' p' _ | Received _ m' p' _ | Failed _ m' p' _ => m' = m ∧ p' = p
  | Slept _ => True
  | Warned _ _ => False
  end.

Definition completes (name : string) (m : Method) (p : Path) (e : Event) : Prop :=
  match e with
  | Received name' m' p' _ | Failed name' m' p' _ => name' = name ∧ m' = m ∧ p' = p
  | _ => False
  end.

Definition off_wire (e : Event) : Prop :=
  match e with
  | Slept _ | Warned _ _ => True
  | _ => False
  end.

(** A log in which every request is completed before anything else
    happens: no two requests are ever in flight. *)
Inductive sequential : list Event → Prop :=
  | sequential_nil : sequential []
  | sequential_exchange name m p body e rest :
      completes name m p e → sequential rest →
      sequential (Sent name m p body :: e :: rest)
  | sequential_other e rest :
      off_wire e → sequential rest → sequential (e :: rest).

(** [c] extends the log, in every world and whatever its result, by events
    satisfying [P]. *)
Definition emits {A : Type} (c : M A) (P : list Event → Prop) : Prop :=
  ∀ w, ∃ evs, log (c w).2 = log w ++ evs ∧ P evs.

Definition only (φ : Event → Prop) (evs : list Event) : Prop :=
  Forall φ evs ∧ sequential evs.

(** ** A successful run, as a function of the backend *)

(** The backend after the relations of [missing] have been created in
    order, and the name-to-identifier map the loop of step 4 builds. *)
Fixpoint post_relations (space_id : string) (missing : list RelationDefinition)
    (h : Heart) : Heart :=
  match missing with
  | [] => h
  | rel_def :: missing' =>
      post_relations space_id missing'
        (create_relation space_id (relation_payload rel_def) h).2
  end.

Fixpoint created_ids (space_id : string) (missing : list RelationDefinition)
    (h : Heart) (relation_name_to_id : gmap string string) : gmap string string :=
  match missing with
  | [] => relation_name_to_id
  | rel_def :: missing' =>
      created_ids space_id missing'
        (create_relation space_id (relation_payload rel_def) h).2
        (<[lower (rd_name rel_def) := gen_id "rel_" h]> relation_name_to_id)
  end.

(** The identifiers the inner loop of step 5 collects, and its warnings. *)
Definition resolved (relation_name_to_id : gmap string string) (rel_name : string)
    : option string :=
  match relation_name_to_id !! lower rel_name with
  | Some rel_id => if truthy rel_id then Some rel_id else None
  | None => None
  end.

Definition resolve (relation_name_to_id : gmap string string)
    (rel_names : list string) : list string :=
  omap (resolved relation_name_to_id) rel_names.

Definition not_found (type_name rel_name : string) : Event :=
  Warned "Relation not found for type" [("type", type_name); ("relation", rel_name)].

Definition warnings (type_name : string) (relation_name_to_id : gmap string string)
    (rel_names : list string) : list Event :=
  omap (λ rel_name,
          match resolved relation_name_to_id rel_name with
          | Some _ => None
          | None => Some (not_found type_name rel_name)
          end) rel_names.

(** The creation request step 5 sends for a type. *)
Definition type_request (relation_name_to_id : gmap string string)
    (type_def : TypeDefinition) : Json :=
  TypeBody (type_payload type_def (resolve relation_name_to_id (td_relations type_def))).

Fixpoint post_types (space_id : string) (relation_name_to_id : gmap string string)
    (missing : list TypeDefinition) (h : Heart) : Heart :=
  match missing with
  | [] => h
  | type_def :: missing' =>
      post_types space_id relation_name_to_id missing'
        (create_type space_id
           (type_payload type_def
              (resolve relation_name_to_id (td_relations type_def))) h).2
  end.

(** The snapshot steps 1 to 3 work on and what they derive from it. *)
Definition snapshot_relations (space_id : string) (h : Heart) : list AnyTypeRelation :=
  as_relation <$> list_relations space_id h.

Definition snapshot_types (space_id : string) (h : Heart) : list AnyTypeType :=
  as_type <$> list_types space_id h.

Definition planned_relations (input : EnsureOntologyInput) (h : Heart)
    : list RelationDefinition * list string * gmap string string :=
  diff_relations (mf_relations (in_manifest input))
    (snapshot_relations (in_space_id input) h) [] [] ∅.

Definition planned_types (input : EnsureOntologyInput) (h : Heart)
    : list TypeDefinition * list string :=
  diff_types (mf_types (in_manifest input))
    (snapshot_types (in_space_id input) h) [] [].

Definition planned_diff (input : EnsureOntologyInput) (h : Heart) : OntologyDiff :=
  mkOntologyDiff (rd_name <$> (planned_relations input h).1.1)
    (td_name <$> (planned_types input h).1)
    (planned_relations input h).1.2 (planned_types input h).2.

(** The name-to-identifier map at the start of step 5. *)
Definition final_ids (input : EnsureOntologyInput) (h : Heart) : gmap string string :=
  created_ids (in_space_id input) (planned_relations input h).1.1 h
    (planned_relations input h).2.

(** The output of a run that completes against the backend [h], and the
    backend it leaves. *)
Definition reconciled (input : EnsureOntologyInput) (h : Heart) : EnsureOntologyOutput :=
  let missing_rels := (planned_relations input h).1.1 in
  let missing_typs := (planned_types input h).1 in
  if in_dry_run input then
    mkEnsureOntologyOutput [] [] (planned_relations input h).1.2
      (planned_types input h).2 (planned_diff input h) true
      (WouldCreate (length missing_rels) (length missing_typs))
  else
    mkEnsureOntologyOutput (rd_name <$> missing_rels) (td_name <$> missing_typs)
      (planned_relations input h).1.2 (planned_types input h).2
      (planned_diff input h) false
      (Created (length (rd_name <$> missing_rels)) (length (td_name <$> missing_typs))).

Definition reconciled_heart (input : EnsureOntologyInput) (h : Heart) : Heart :=
  if in_dry_run input then h
  else
    post_types (in_space_id input) (final_ids input h) (planned_types input h).1
      (post_relations (in_space_id input) (planned_relations input h).1.1 h).

(** ** Comparing a sequence with itself *)

(** [a[i]] has kept its entry in [b2j] (it is not a popular element). *)
Definition kept (a : list ascii) (i : nat) : bool :=
  match a !! i with
  | Some x => negb (popular a x)
  | None => false
  end.

(** The number of consecutive kept elements of [a] that end at index
    [i - 1]; [diag a (S i)] is the length of the run ending at [i]. *)
Fixpoint diag (a : list ascii) (i : nat) : nat :=
  match i with
  | 0 => 0
  | S i' => if kept a i' then S (diag a i') else 0
  end.

(** The state of [find_longest_match] on [(a, a)] before row [i]: the
    lengths recorded for the previous row are bounded by the runs of kept
    elements, the diagonal one is exact, and the best block lies on the
    diagonal and is at least as long as every run seen. *)
Definition row_inv (a : list ascii) (i : nat) (j2len : gmap nat nat) : Prop :=
  (∀ j, j2len_get j2len j ≤ diag a j ∧ j2len_get j2len j ≤ diag a i)
  ∧ j2len_get j2len i = diag a i.

Definition best_inv (a : list ascii) (i : nat) (best : Match) : Prop :=
  m_a best = m_b best ∧ m_a best + m_size best ≤ i
  ∧ ∀ x, x ≤ i → diag a x ≤ m_size best.

(** ** Scenarios and assumptions on the backend *)


(** The next [n] identifiers the backend [h] will generate are new to its
    two dictionaries and distinct from one another (what [uuid4] is relied
    upon for), and the keys of each dictionary are distinct. *)
Definition collision_free (h : Heart) (n : nat) : Prop :=
  NoDup ((fst <$> relations h)
         ++ ((λ i, "rel_" +:+ uuid4_hex h i) <$> seq (drawn h) n))
  ∧ NoDup ((fst <$> types h)
           ++ ((λ i, "type_" +:+ uuid4_hex h i) <$> seq (drawn h) n)).


(** Definitions as [RelationDefinition(name=.., format=..)] and
    [TypeDefinition(name=.., relations=..)] validate them. *)
Definition relation_definition (name format : string) : RelationDefinition :=
  mkRelationDefinition name (generate_key None name) format None 0 [].

Definition type_definition (name : string) (relations : list string) : TypeDefinition :=
  mkTypeDefinition name (generate_key None name) None None "basic" relations.

(** A manifest with two relations and a type that refers to one of them, to
    a name that is declared nowhere and to a name that only resembles a
    declared one. *)
Definition crm_manifest : OntologyManifest :=
  mkOntologyManifest "crm" "1.0.0"
    [relation_definition "Email" "email"; relation_definition "Statuses" "status"]
    [type_definition "Invoice" ["email"; "Amount"; "Status"]].

Definition crm_input (dry_run : bool) : EnsureOntologyInput :=
  mkEnsureOntologyInput "space_1" crm_manifest (Some "work") dry_run.


Definition amount_heart : Heart :=
  mkHeart
    [("rel_0", mkRelationRec "rel_0" "space_1" "Amount" "amount" "number" None 0 [])]
    [] (λ n, letters (S n)) 0 [].

(** ** Blocks and ranges *)

(** The block [m] lies in the range [a[alo:ahi]], [b[blo:bhi]]. *)
Definition within (alo ahi blo bhi : nat) (m : Match) : Prop :=
  alo ≤ m_a m ∧ m_a m + m_size m ≤ ahi ∧ blo ≤ m_b m ∧ m_b m + m_size m ≤ bhi.

(** The lengths recorded for the row before [i] fit between the lower ends
    of the range and the cells they belong to. *)
Definition lengths_fit (alo blo i : nat) (j2len : gmap nat nat) : Prop :=
  ∀ j k, j2len !! j = Some k → k ≤ i - alo ∧ k ≤ S j - blo.

(** The ranges still to be searched are well formed. *)
Definition well_formed (queue : list (nat * nat * nat * nat)) : Prop :=
  Forall (λ q, q.1.1.1 ≤ q.1.1.2 ∧ q.1.2 ≤ q.2) queue.

(** The number of elements of [a], and of [b], in the ranges of a queue. *)
Definition span_a (queue : list (nat * nat * nat * nat)) : nat :=
  sum_list ((λ q, q.1.1.2 - q.1.1.1) <$> queue).

Definition span_b (queue : list (nat * nat * nat * nat)) : nat :=
  sum_list ((λ q, q.2 - q.1.2) <$> queue).

(** A backend that holds, in the space, a relation and a type whose names
    differ from those of the manifest only in the case of their letters. *)
Definition shouting_heart : Heart :=
  mkHeart
    [("rel_0", mkRelationRec "rel_0" "space_1" "EMAIL" "email" "email" None 0 [])]
    [("type_0", mkTypeRec "type_0" "space_1" "INVOICE" "invoice" "basic" None None [])]
    (λ n, letters (S n)) 0 [].

(** A manifest that declares nothing. *)
Definition empty_manifest : OntologyManifest := mkOntologyManifest "empty" "1.0.0" [] [].

(** * Properties *)

(** ** The monad *)

Lemma bind_run {A B : Type} (c : M A) (f : A → M B) (w : World) :
  (c ≫= f) w =
  match c w with
  | (Ok a, w') => f a w'
  | (Raise e, w') => (Raise e, w')
  end.
Proof. reflexivity. Qed.

Lemma bind_Ok_inv {A B : Type} (c : M A) (f : A → M B) (w w' : World) (b : B) :
  (c ≫= f) w = (Ok b, w') →
  ∃ a w1, c w = (Ok a, w1) ∧ f a w1 = (Ok b, w').
Proof.
  rewrite bind_run. destruct (c w) as [[a|e] w1]; [eauto | discriminate].
Qed.

(** ** Client lookup reads the world and leaves it alone *)

Lemma or_current_pure (pn : option string) (w : World) :
  (or_current pn w).2 = w.
Proof.
  unfold or_current, get_current_profile.
  destruct pn as [p|]; [destruct (truthy p)|]; try reflexivity;
    rewrite bind_run; destruct (_current_profile w); reflexivity.
Qed.

Lemma or_current_Ok (pn : option string) (w : World) :
  ∃ p, or_current pn w = (Ok p, w).
Proof.
  unfold or_current, get_current_profile.
  destruct pn as [p|]; [destruct (truthy p)|]; try (eexists; reflexivity);
    rewrite bind_run; destruct (_current_profile w); eexists; reflexivity.
Qed.

Lemma _get_client_pure (pn : option string) (w : World) :
  (_get_client pn w).2 = w.
Proof.
  unfold _get_client. rewrite bind_run.
  destruct (or_current_Ok pn w) as [p ->]. simpl.
  case_bool_decide; reflexivity.
Qed.

Lemma moved_frame (name : string) (oh : option Heart) (evs : list Event) (w : World)
    (pn : option string) :
  (_get_client pn (moved name oh evs w)).1 = (_get_client pn w).1.
Proof.
  unfold _get_client. rewrite !bind_run.
  unfold or_current, get_current_profile.
  destruct pn as [p|]; [destruct (truthy p)|]; simpl;
    rewrite ?bind_run; simpl; try destruct (_current_profile w); simpl;
    case_bool_decide; reflexivity.
Qed.

(** ** A retried request, as a function of the backend it talks to *)

Lemma emit_moved (e : Event) (w : World) : emit e w = moved "" None [e] w.
Proof. reflexivity. Qed.

Lemma moved_name_None (n1 n2 : string) (evs : list Event) (w : World) :
  moved n1 None evs w = moved n2 None evs w.
Proof. reflexivity. Qed.

Lemma moved_moved (name : string) (oh1 oh2 : option Heart) (e1 e2 : list Event)
    (w : World) :
  moved name oh2 e2 (moved name oh1 e1 w) =
  moved name (match oh2 with Some h => Some h | None => oh1 end) (e1 ++ e2) w.
Proof.
  unfold moved; simpl. rewrite <- app_assoc.
  destruct oh1, oh2; simpl; rewrite ?insert_insert_eq; reflexivity.
Qed.

Lemma moved_nil (name : string) (w : World) : moved name None [] w = w.
Proof. destruct w; unfold moved; simpl. rewrite app_nil_r. reflexivity. Qed.

Lemma hearts_moved (name : string) (oh : option Heart) (evs : list Event)
    (w : World) :
  hearts (moved name oh evs w) !! name =
  match oh with Some h => Some h | None => hearts w !! name end.
Proof. destruct oh; simpl; [apply lookup_insert_eq | reflexivity]. Qed.

Lemma hearts_moved_ne (name n : string) (oh : option Heart) (evs : list Event)
    (w : World) :
  n ≠ name → hearts (moved name oh evs w) !! n = hearts w !! n.
Proof. intros Hn. destruct oh; simpl; [by apply lookup_insert_ne | reflexivity]. Qed.

Lemma log_moved (name : string) (oh : option Heart) (evs : list Event) (w : World) :
  log (moved name oh evs w) = log w ++ evs.
Proof. reflexivity. Qed.

Lemma raise_for_status_run (response : Response) (w : World) :
  raise_for_status response w =
  (if is_success response then Ok () else Raise (HTTPStatusError (status_code response)), w).
Proof.
  unfold raise_for_status, is_success.
  destruct (bool_decide _ && bool_decide _); reflexivity.
Qed.

Lemma request_once_eq (m : Method) (p : Path) (pn : option string) (body : Json)
    (w : World) :
  request_once m p pn body w =
  match (_get_client pn w).1 with
  | Raise e => (Raise e, w)
  | Ok name =>
      let '(r0, oh') := first_transmission m p body (hearts w !! name) in
      (checked r0, moved name oh' [Sent name m p body; outcome_event name m p r0] w)
  end.
Proof.
  unfold request_once. rewrite bind_run.
  pose proof (_get_client_pure pn w) as Hpure.
  destruct (_get_client pn w) as [[name|e] w1]; simpl in *; subst w1; [|reflexivity].
  rewrite bind_run. destruct (or_current_Ok pn w) as [pr ->].
  rewrite bind_run. unfold client_request, first_transmission. simpl.
  destruct (hearts w !! name) as [h|] eqn:Hh.
  - destruct (transmit m p body h) as [[response|e] h'] eqn:Ht; simpl.
    + rewrite bind_run, raise_for_status_run.
      unfold moved, emit, set_heart; simpl. rewrite <- app_assoc; simpl.
      destruct (is_success response); reflexivity.
    + unfold moved, emit, set_heart; simpl. rewrite <- app_assoc; reflexivity.
  - simpl. unfold moved, emit; simpl. rewrite <- app_assoc; reflexivity.
Qed.

Lemma retrying_eq {A : Type} (wait : nat → Q) (fn : M A) (left k : nat) (w : World) :
  retrying wait fn left k w =
  match fn w with
  | (Ok a, w') => (Ok a, w')
  | (Raise e, w') =>
      if retry_if_exception_type e then
        match left with
        | 0 => (Raise e, w')
        | S left' => retrying wait fn left' (S k) (emit (Slept (wait k)) w')
        end
      else (Raise e, w')
  end.
Proof. destruct left; reflexivity. Qed.

Lemma exchange_eq (wait : nat → Q) (name : string) (m : Method) (p : Path)
    (body : Json) (left k : nat) (oh : option Heart) :
  exchange wait name m p body left k oh =
  let '(r0, oh') := first_transmission m p body oh in
  let evs := [Sent name m p body; outcome_event name m p r0] in
  match checked r0 with
  | Ok response => (Ok response, oh', evs)
  | Raise e =>
      if retry_if_exception_type e then
        match left with
        | 0 => (Raise e, oh', evs)
        | S left' =>
            let '(r, oh'', evs') := exchange wait name m p body left' (S k) oh' in
            (r, oh'', evs ++ Slept (wait k) :: evs')
        end
      else (Raise e, oh', evs)
  end.
Proof. destruct left; reflexivity. Qed.

Lemma first_transmission_None (m : Method) (p : Path) (body : Json)
    (oh : option Heart) (r : Result Response) :
  first_transmission m p body oh = (r, None) → oh = None.
Proof.
  destruct oh as [h|]; [|reflexivity]. simpl.
  destruct (transmit m p body h); discriminate.
Qed.

Lemma exchange_None (wait : nat → Q) (name : string) (m : Method) (p : Path)
    (body : Json) (left k : nat) (oh : option Heart) (r : Result Response)
    (evs : list Event) :
  exchange wait name m p body left k oh = (r, None, evs) → oh = None.
Proof.
  revert k oh evs r. induction left as [|left IH]; intros k oh evs r;
    rewrite exchange_eq;
    destruct (first_transmission m p body oh) as [r0 oh'] eqn:Hft;
    destruct (checked r0) as [response|e];
    try destruct (retry_if_exception_type e);
    try (intros [= _ -> _]; eapply first_transmission_None, Hft).
  destruct (exchange wait name m p body left (S k) oh') as [[r1 oh''] evs'] eqn:Hex.
  intros [= _ -> _]. apply IH in Hex. subst oh'.
  eapply first_transmission_None, Hft.
Qed.

Lemma retrying_request_eq (m : Method) (p : Path) (pn : option string)
    (body : Json) (wait : nat → Q) (name : string) (left k : nat) (w : World) :
  (_get_client pn w).1 = Ok name →
  retrying wait (request_once m p pn body) left k w =
  let '(r, oh, evs) := exchange wait name m p body left k (hearts w !! name) in
  (r, moved name oh evs w).
Proof.
  revert k w. induction left as [|left IH]; intros k w Hc;
    rewrite retrying_eq, exchange_eq, request_once_eq, Hc;
    destruct (first_transmission m p body (hearts w !! name)) as [r0 oh'] eqn:Hft;
    destruct (checked r0) as [response|e]; try reflexivity;
    destruct (retry_if_exception_type e); try reflexivity.
  rewrite (emit_moved _ (moved _ _ _ _)).
  rewrite (moved_name_None "" name), moved_moved.
  rewrite IH by (rewrite moved_frame; exact Hc).
  rewrite hearts_moved.
  assert (match oh' with Some h => Some h | None => hearts w !! name end = oh') as ->.
  { destruct oh'; [reflexivity|]. eapply first_transmission_None, Hft. }
  destruct (exchange wait name m p body left (S k) oh') as [[r oh''] evs'] eqn:Hex.
  rewrite moved_moved. rewrite <- app_assoc. simpl.
  destruct oh''; [reflexivity|].
  by rewrite (exchange_None _ _ _ _ _ _ _ _ _ _ Hex).
Qed.

Lemma request_eq (m : Method) (p : Path) (pn : option string) (body : Json)
    (w : World) :
  request m p pn body w =
  match (_get_client pn w).1 with
  | Raise e => (Raise e, w)
  | Ok name =>
      let '(r, oh, evs) := exchange backoff name m p body 2 1 (hearts w !! name) in
      (r, moved name oh evs w)
  end.
Proof.
  unfold request, retry. simpl Nat.sub. fold backoff.
  destruct (_get_client pn w).1 as [name|e] eqn:Hc.
  - by apply retrying_request_eq.
  - rewrite retrying_eq, request_once_eq, Hc.
    assert (retry_if_exception_type e = false) as ->; [|reflexivity].
    unfold _get_client in Hc. rewrite bind_run in Hc.
    destruct (or_current_Ok pn w) as [pr Hpr]. rewrite Hpr in Hc. simpl in Hc.
    case_bool_decide; simpl in Hc; [discriminate|]. by inversion Hc.
Qed.

(** ** The profile context *)

(** C8.  [set_current_profile] compares the lower-cased name with the fixed
    set personal, work, research.  Outside the set it raises [ValueError]
    and the world is exactly as before: nothing was logged or sent, no
    client or backend was touched and the stored context is unchanged.
    Inside the set it installs and returns a context carrying the
    lower-cased name, which [get_current_profile] then returns.  With no
    context set, [get_current_profile] returns the configured default. *)
Theorem set_current_profile_validates (name : string) (sid : option string)
    (w : World) :
  (lower name ∉ ["personal"; "work"; "research"] →
   ∃ msg, set_current_profile name sid w = (Raise (ValueError msg), w))
  ∧ (lower name ∈ ["personal"; "work"; "research"] →
     let ctx := mkProfileContext (lower name) sid in
     let w' := set_current (Some ctx) w in
     set_current_profile name sid w = (Ok ctx, w')
     ∧ get_current_profile w' = (Ok ctx, w')
     ∧ log w' = log w ∧ hearts w' = hearts w ∧ _clients w' = _clients w)
  ∧ (_current_profile w = None →
     get_current_profile w = (Ok (mkProfileContext (default_profile w) None), w)).
Proof.
  unfold set_current_profile, get_current_profile, valid_profiles.
  repeat split.
  - intros Hout. rewrite bool_decide_eq_false_2 by exact Hout. eauto.
  - rewrite bool_decide_eq_true_2 by assumption. reflexivity.
  - intros ->. reflexivity.
Qed.

Lemma set_current_profile_validates_witness :
  (∃ msg, set_current_profile "bogus" None started_world
          = (Raise (ValueError msg), started_world))
  ∧ (set_current_profile "WORK" (Some "sess_123") started_world).1
    = Ok (mkProfileContext "work" (Some "sess_123"))
  ∧ get_current_profile started_world = (Ok (mkProfileContext "personal" None), started_world).
Proof.
  split; [|split].
  - apply (proj1 (set_current_profile_validates "bogus" None started_world)).
    apply (bool_decide_unpack _). vm_compute. exact I.
  - destruct (proj1 (proj2 (set_current_profile_validates "WORK" (Some "sess_123")
                              started_world))) as [-> _].
    + apply (bool_decide_unpack _). vm_compute. exact I.
    + reflexivity.
  - apply (proj2 (proj2 (set_current_profile_validates "" None started_world))).
    reflexivity.
Defined.

(** ** Name matching *)

Lemma similar_iff (name1 name2 : string) :
  similar name1 name2 = true ↔ (FUZZY_MATCH_THRESHOLD <= _fuzzy_match name1 name2)%Q.
Proof. apply Qle_bool_iff. Qed.

Lemma not_similar_iff (name1 name2 : string) :
  similar name1 name2 = false ↔ (_fuzzy_match name1 name2 < FUZZY_MATCH_THRESHOLD)%Q.
Proof.
  rewrite <- not_true_iff_false, similar_iff. split.
  - apply Qnot_le_lt.
  - apply Qlt_not_le.
Qed.

Lemma _find_matching_relation_Some (name : string) (existing : list AnyTypeRelation)
    (rel : AnyTypeRelation) :
  _find_matching_relation name existing = Some rel ↔
  ∃ before after, existing = before ++ rel :: after
    ∧ Forall (λ r, similar name (ar_name r) = false) before
    ∧ similar name (ar_name rel) = true.
Proof.
  induction existing as [|x rest IH]; simpl.
  - split; [discriminate|]. intros ([|??] & ? & ? & _); discriminate.
  - destruct (similar name (ar_name x)) eqn:Hx.
    + split.
      * intros [= ->]. exists [], rest. auto.
      * intros ([|y before] & after & Heq & Hall & Hrel); simplify_eq/=; [done|].
        apply Forall_cons in Hall as [Hy _]. congruence.
    + rewrite IH. split.
      * intros (before & after & -> & Hall & Hrel).
        exists (x :: before), after. auto.
      * intros ([|y before] & after & Heq & Hall & Hrel); simplify_eq/=; [congruence|].
        apply Forall_cons in Hall as [_ Hall]. eauto.
Qed.

Lemma _find_matching_relation_None (name : string) (existing : list AnyTypeRelation) :
  _find_matching_relation name existing = None ↔
  Forall (λ r, similar name (ar_name r) = false) existing.
Proof.
  induction existing as [|x rest IH]; simpl.
  - split; auto.
  - destruct (similar name (ar_name x)) eqn:Hx.
    + split; [discriminate|]. intros [Hx' _]%Forall_cons. congruence.
    + rewrite IH. split; [auto|]. by intros [_ ?]%Forall_cons.
Qed.

(** C4.  [_find_matching_relation] returns the first element, in the order
    of the list, whose similarity to the candidate is at least 0.85 (all
    elements before it are below), and nothing when every element is below.
    Hence with two existing relations, when the first one meets the
    threshold the matcher returns it and the planner binds the declared name
    to its identifier, whatever the second one is, an exact match included. *)
Theorem find_matching_first_above_threshold (name : string) :
  (FUZZY_MATCH_THRESHOLD == 85 / 100)%Q
  ∧ (∀ existing : list AnyTypeRelation,
       match _find_matching_relation name existing with
       | Some rel =>
           ∃ before after, existing = before ++ rel :: after
             ∧ Forall (λ r, (_fuzzy_match name (ar_name r) < FUZZY_MATCH_THRESHOLD)%Q) before
             ∧ (FUZZY_MATCH_THRESHOLD <= _fuzzy_match name (ar_name rel))%Q
       | None =>
           Forall (λ r, (_fuzzy_match name (ar_name r) < FUZZY_MATCH_THRESHOLD)%Q) existing
       end)
  ∧ (∀ (first second : AnyTypeRelation) (rel_def : RelationDefinition),
       rd_name rel_def = name →
       (FUZZY_MATCH_THRESHOLD <= _fuzzy_match name (ar_name first))%Q →
       _find_matching_relation name [first; second] = Some first
       ∧ diff_relations [rel_def] [first; second] [] [] ∅
         = ([], [name], {[ lower name := ar_id first ]})).
Proof.
  split; [reflexivity|]. split.
  - intros existing.
    destruct (_find_matching_relation name existing) as [rel|] eqn:Hfind.
    + apply _find_matching_relation_Some in Hfind as (before & after & -> & Hall & Hrel).
      exists before, after. split; [reflexivity|]. split.
      * eapply Forall_impl; [exact Hall|]. intros r. apply not_similar_iff.
      * by apply similar_iff.
    + apply _find_matching_relation_None in Hfind.
      eapply Forall_impl; [exact Hfind|]. intros r. apply not_similar_iff.
  - intros first second rel_def <- Hfirst%similar_iff.
    simpl. rewrite Hfirst. split; reflexivity.
Qed.

Lemma find_matching_first_above_threshold_witness :
  let statuses := mkAnyTypeRelation "rel_1" "statuses" "Statuses" "status" None in
  let status := mkAnyTypeRelation "rel_2" "status" "Status" "status" None in
  _find_matching_relation "Status" [statuses; status] = Some statuses
  ∧ diff_relations [mkRelationDefinition "Status" "status" "status" None 0 []]
      [statuses; status] [] [] ∅
    = ([], ["Status"], {[ "status" := "rel_1" ]}).
Proof.
  intros statuses status.
  apply (proj2 (proj2 (find_matching_first_above_threshold "Status")) statuses status
           (mkRelationDefinition "Status" "status" "status" None 0 [])).
  - reflexivity.
  - vm_compute. discriminate.
Defined.

(** For the two names of the specification's example the premise fails: the
    similarity of "Status" and "Statuz" is 10/12, below the threshold, so the
    matcher passes over "Statuz" and returns the exact match. *)
Lemma statuz_is_below_threshold :
  let statuz := mkAnyTypeRelation "rel_1" "statuz" "Statuz" "status" None in
  let status := mkAnyTypeRelation "rel_2" "status" "Status" "status" None in
  (_fuzzy_match "Status" "Statuz" == 10 # 12)%Q
  ∧ _find_matching_relation "Status" [statuz; status] = Some status.
Proof. split; reflexivity. Qed.

(** ** The retry policy of [FleetRouter.request] *)

Lemma new_events_moved (name : string) (oh : option Heart) (evs : list Event)
    (w : World) :
  new_events w (moved name oh evs w) = evs.
Proof. unfold new_events. simpl. by rewrite drop_app_length. Qed.

Lemma new_events_refl (w : World) : new_events w w = [].
Proof. unfold new_events. by rewrite drop_all. Qed.

Lemma checked_surfaced (name : string) (m : Method) (p : Path)
    (r0 : Result Response) :
  surfaced (outcome_event name m p r0) (checked r0).
Proof.
  destruct r0 as [response|e]; simpl; [|reflexivity].
  unfold is_success.
  destruct (decide (200 ≤ status_code response ≤ 299)) as [[H1 H2]|Hn].
  - rewrite bool_decide_eq_true_2 by done.
    rewrite !bool_decide_eq_true_2 by done. simpl. eauto.
  - rewrite bool_decide_eq_false_2 by done.
    destruct (bool_decide (200 ≤ status_code response)) eqn:E1;
      destruct (bool_decide (status_code response ≤ 299)) eqn:E2; simpl; try reflexivity.
    apply bool_decide_eq_true in E1, E2. tauto.
Qed.

Lemma checked_retryable (name : string) (m : Method) (p : Path)
    (r0 : Result Response) (e : Exn) :
  checked r0 = Raise e →
  retry_if_exception_type e = true ↔
  connect_failure_or_timeout (outcome_event name m p r0).
Proof.
  destruct r0 as [response|x]; simpl.
  - destruct (is_success response); [discriminate|]. intros [= <-]. simpl.
    split; [discriminate | tauto].
  - intros [= <-]. destruct x; simpl; split; try tauto; try discriminate.
Qed.

Lemma sleeps_app e1 e2 : sleeps (e1 ++ e2) = sleeps e1 ++ sleeps e2.
Proof. unfold sleeps. apply omap_app. Qed.
Lemma attempts_app e1 e2 : attempts (e1 ++ e2) = attempts e1 + attempts e2.
Proof. unfold attempts. by rewrite List.filter_app, length_app. Qed.
Lemma completions_app e1 e2 : completions (e1 ++ e2) = completions e1 ++ completions e2.
Proof. unfold completions. by rewrite List.filter_app. Qed.

Lemma attempt_events (name : string) (m : Method) (p : Path) (body : Json)
    (r0 : Result Response) :
  let evs := [Sent name m p body; outcome_event name m p r0] in
  attempts evs = 1 ∧ completions evs = [outcome_event name m p r0] ∧ sleeps evs = [].
Proof. destruct r0; done. Qed.

Lemma policy_single (wait : nat → Q) (name : string) (m : Method) (p : Path)
    (body : Json) (r0 r : Result Response) (left k : nat) :
  surfaced (outcome_event name m p r0) r →
  (connect_failure_or_timeout (outcome_event name m p r0) → left = 0) →
  policy wait left k r [Sent name m p body; outcome_event name m p r0].
Proof.
  intros Hsurf Hstop. unfold policy.
  destruct (attempt_events name m p body r0) as (-> & -> & ->).
  split; [lia|]. split; [done|]. split; [|split; [|split]].
  - intros [|i] e; simpl; [lia|done].
  - intros [|i] e; simpl; [|done]. intros [= <-] Hr ?. apply Hstop in Hr. lia.
  - by intros e [= <-].
  - done.
Qed.

Lemma policy_retry (wait : nat → Q) (name : string) (m : Method) (p : Path)
    (body : Json) (r0 r : Result Response) (left k : nat) (evs' : list Event) :
  connect_failure_or_timeout (outcome_event name m p r0) →
  policy wait left (S k) r evs' →
  policy wait (S left) k r
    ([Sent name m p body; outcome_event name m p r0] ++ Slept (wait k) :: evs').
Proof.
  intros Hr ([Ha1 Ha2] & Hlen & Honly & Hdoes & Hlast & Hsleeps). unfold policy.
  destruct (attempt_events name m p body r0) as (Ha & Hc & Hs).
  rewrite attempts_app, completions_app, sleeps_app, Ha, Hc, Hs.
  change (attempts (Slept (wait k) :: evs')) with (attempts evs').
  change (completions (Slept (wait k) :: evs')) with (completions evs').
  change (sleeps (Slept (wait k) :: evs')) with (wait k :: sleeps evs').
  split; [lia|]. split; [simpl; lia|]. split; [|split; [|split]].
  - intros [|i] e; simpl; [by intros [= <-]|].
    intros Hi Hlt. apply (Honly i); [done|lia].
  - intros [|i] e; simpl; [lia|].
    intros Hi Hre Hlt. apply -> Nat.succ_lt_mono. apply (Hdoes i e); [done|done|lia].
  - intros e. simpl. destruct (completions evs') as [|c cs] eqn:Hcs'.
    { simpl in Hlen. lia. }
    rewrite last_cons_cons. apply Hlast.
  - rewrite Hsleeps. simpl.
    destruct (attempts evs') as [|n]; [lia|]. simpl. by rewrite Nat.sub_0_r.
Qed.

Lemma exchange_policy (wait : nat → Q) (name : string) (m : Method) (p : Path)
    (body : Json) (left k : nat) (oh : option Heart) :
  policy wait left k (exchange wait name m p body left k oh).1.1
    (exchange wait name m p body left k oh).2.
Proof.
  revert k oh. induction left as [|left IH]; intros k oh; rewrite exchange_eq;
    destruct (first_transmission m p body oh) as [r0 oh'];
    pose proof (checked_surfaced name m p r0) as Hsurf;
    pose proof (checked_retryable name m p r0) as Hretry;
    cbv zeta;
    (destruct (checked r0) as [response|e] eqn:Hchk;
      [|specialize (Hretry e eq_refl); destruct (retry_if_exception_type e) eqn:Hre]);
    simpl.
  - apply policy_single; [done|]. destruct r0 as [resp|x]; simpl in *; [done|discriminate].
  - by apply policy_single.
  - apply policy_single; [done|]. intros Hr%Hretry. discriminate.
  - apply policy_single; [done|]. destruct r0 as [resp|x]; simpl in *; [done|discriminate].
  - specialize (IH (S k) oh').
    destruct (exchange wait name m p body left (S k) oh') as [[r oh''] evs'].
    simpl in *. apply policy_retry; [by apply Hretry | done].
  - apply policy_single; [done|]. intros Hr%Hretry. discriminate.
Qed.
Lemma _get_client_cases (pn : option string) (w : World) :
  (∃ name, (_get_client pn w).1 = Ok name ∧ name ∈ _clients w)
  ∨ (∃ msg, (_get_client pn w).1 = Raise (ValueError msg)).
Proof.
  unfold _get_client. rewrite bind_run.
  destruct (or_current_Ok pn w) as [pr ->]. simpl.
  case_bool_decide; simpl; eauto.
Qed.

(** C5.  One call of [request] sends at most three transmissions.  A
    transmission is followed by another one only when it failed with a
    connection failure or a timeout, and such a failure is followed by
    another attempt as long as fewer than three were made.  The result is
    that of the last transmission: its exception re-raised unchanged (also
    when the third attempt fails), its response when the status is 2xx, and
    [HTTPStatusError] at once for any other status, which is therefore never
    retried.  Without any transmission the call raised [ValueError]: there
    is no client for the profile. *)
Theorem request_retry_policy (m : Method) (p : Path) (pn : option string)
    (body : Json) (w : World) :
  let r := (request m p pn body w).1 in
  let w' := (request m p pn body w).2 in
  let evs := new_events w w' in
  log w' = log w ++ evs
  ∧ attempts evs ≤ 3
  ∧ length (completions evs) = attempts evs
  ∧ (∀ i e, completions evs !! i = Some e → S i < attempts evs →
            connect_failure_or_timeout e)
  ∧ (∀ i e, completions evs !! i = Some e → connect_failure_or_timeout e →
            i < 2 → S i < attempts evs)
  ∧ (∀ e, last (completions evs) = Some e → surfaced e r)
  ∧ (attempts evs = 0 → ∃ msg, r = Raise (ValueError msg)).
Proof.
  rewrite request_eq.
  destruct (_get_client_cases pn w) as [(name & -> & _)|(msg & ->)].
  - pose proof (exchange_policy backoff name m p body 2 1 (hearts w !! name)) as Hp.
    destruct (exchange backoff name m p body 2 1 (hearts w !! name)) as [[r oh] evs].
    simpl in *. rewrite new_events_moved.
    destruct Hp as (? & ? & ? & ? & ? & _).
    repeat split; try done; try lia.
  - simpl. rewrite new_events_refl, app_nil_r.
    repeat split; try done; try (simpl; lia); eauto.
    all: by intros [|?] ?.
Qed.

Lemma request_retry_policy_witness :
  let w := world_with "work" (empty_heart [ConnectFails; TimesOut; ConnectFails]) in
  let r := (request GET Health (Some "work") NoBody w).1 in
  let evs := new_events w (request GET Health (Some "work") NoBody w).2 in
  attempts evs = 3 ∧ r = Raise ConnectError
  ∧ surfaced (Failed "work" GET Health ConnectError) r.
Proof.
  intros w r evs. split; [reflexivity|]. split; [reflexivity|].
  apply (proj1 (proj2 (proj2 (proj2 (proj2 (proj2
           (request_retry_policy GET Health (Some "work") NoBody w))))))).
  reflexivity.
Defined.

Lemma backoff_formula (k : nat) :
  1 ≤ k → (backoff k == Qmin ((1 # 2) * 2 ^ Z.of_nat (k - 1)) 10)%Q.
Proof.
  intros Hk. unfold backoff, wait_exponential.
  assert (1 <= 2 ^ Z.of_nat (k - 1))%Q as Hpow
    by (apply Qpower_1_le; [discriminate | lia]).
  set (x := (2 ^ Z.of_nat (k - 1))%Q) in *.
  destruct (Q.max_spec 0 (1 # 2)) as [[_ H1]|[H1 _]]; [|lra].
  destruct (Q.min_spec ((1 # 2) * x) 10) as [[H2 H3]|[H2 H3]];
  destruct (Q.max_spec (Qmax 0 (1 # 2)) (Qmin ((1 # 2) * x) 10)) as [[H4 H5]|[H4 H5]];
    lra.
Qed.
(** C6.  The wait the retry policy of [FleetRouter.request] inserts after
    the failed attempt number [k] (that is, before attempt [k + 1]) is
    [min(0.5 * 2^(k-1), 10)] seconds: half a second before the second
    attempt, doubled after each further attempt, never above ten seconds.
    The waits a call of [request] performs are those of this schedule, one
    after each attempt but the last. *)
Theorem backoff_schedule (k : nat) :
  1 ≤ k →
  (backoff k == Qmin ((1 # 2) * 2 ^ Z.of_nat (k - 1)) 10)%Q
  ∧ (backoff 1 == 1 # 2)%Q
  ∧ (backoff (S k) == Qmin (2 * backoff k) 10)%Q
  ∧ (backoff k <= 10)%Q
  ∧ ∀ m p pn body w,
      let evs := new_events w (request m p pn body w).2 in
      sleeps evs = backoff <$> seq 1 (attempts evs - 1).
Proof.
  intros Hk. split; [by apply backoff_formula|]. split; [reflexivity|].
  split; [|split].
  - rewrite (backoff_formula (S k)) by lia. rewrite (backoff_formula k) by lia.
    replace (Z.of_nat (S k - 1)) with (1 + Z.of_nat (k - 1))%Z by lia.
    rewrite Qpower_plus by discriminate.
    change (2 ^ 1)%Q with 2%Q.
    assert (1 <= 2 ^ Z.of_nat (k - 1))%Q as Hpow
      by (apply Qpower_1_le; [discriminate | lia]).
    set (x := (2 ^ Z.of_nat (k - 1))%Q) in *.
    destruct (Q.min_spec ((1 # 2) * x) 10) as [[H2 H3]|[H2 H3]];
    destruct (Q.min_spec ((1 # 2) * (2 * x)) 10) as [[H4 H5]|[H4 H5]];
    destruct (Q.min_spec (2 * Qmin ((1 # 2) * x) 10) 10) as [[H6 H7]|[H6 H7]];
      lra.
  - rewrite backoff_formula by lia. apply Q.le_min_r.
  - intros m p pn body w. rewrite request_eq.
    destruct (_get_client_cases pn w) as [(name & -> & _)|(msg & ->)].
    + pose proof (exchange_policy backoff name m p body 2 1 (hearts w !! name)) as Hp.
      destruct (exchange backoff name m p body 2 1 (hearts w !! name)) as [[r oh] evs].
      simpl in *. rewrite new_events_moved. apply Hp.
    + simpl. by rewrite new_events_refl.
Qed.

Lemma backoff_schedule_witness :
  (backoff 2 == 1)%Q ∧ (backoff 3 == 2)%Q ∧ (backoff 6 == 10)%Q
  ∧ sleeps (new_events (world_with "work" (empty_heart [ConnectFails; TimesOut]))
              (request GET Health (Some "work") NoBody
                 (world_with "work" (empty_heart [ConnectFails; TimesOut]))).2)
    = [backoff 1; backoff 2].
Proof.
  destruct (backoff_schedule 2 ltac:(lia)) as (H2 & _ & H3 & _ & Hreq).
  destruct (backoff_schedule 6 ltac:(lia)) as (H6 & _).
  split; [rewrite H2; reflexivity|]. split; [rewrite H3, H2; reflexivity|].
  split; [rewrite H6; reflexivity|].
  rewrite Hreq. reflexivity.
Defined.
(** ** Health aggregation *)

Lemma _get_client_explicit (name : string) (w : World) :
  lower name = name → truthy name = true → name ∈ _clients w →
  (_get_client (Some name) w).1 = Ok name.
Proof.
  intros Hl Ht Hin. unfold _get_client, or_current. rewrite Ht, bind_run. simpl.
  rewrite Hl. by rewrite bool_decide_eq_true_2.
Qed.

Lemma json_content (response : Response) (w : World) :
  content response ≠ NoContent → json response w = (Ok (content response), w).
Proof. unfold json. by destruct (content response). Qed.

Lemma check_profiles_spec (ps : list string) (results : gmap string HealthEntry)
    (w : World) :
  NoDup ps →
  Forall (λ n, lower n = n ∧ truthy n = true ∧ n ∈ _clients w) ps →
  ∃ results' w',
    check_profiles ps results w = (Ok results', w')
    ∧ (∀ n, n ∈ ps → results' !! n = Some (probe n (hearts w !! n)))
    ∧ (∀ n, n ∉ ps → results' !! n = results !! n).
Proof.
  revert results w. induction ps as [|name ps IH]; intros results w Hnd Hall.
  - exists results, w. split; [reflexivity|]. split; [by intros ? ?%elem_of_nil|done].
  - apply NoDup_cons in Hnd as [Hnotin Hnd].
    apply Forall_cons in Hall as [(Hl & Ht & Hin) Hall].
    simpl. rewrite bind_run. unfold try_except at 1. rewrite bind_run.
    unfold get. rewrite request_eq, (_get_client_explicit name w Hl Ht Hin).
    pose proof (eq_refl : probe name (hearts w !! name) = _) as Hprobe.
    unfold probe in Hprobe at 2.
    destruct (exchange backoff name GET Health NoBody 2 1 (hearts w !! name))
      as [[r oh] evs].
    simpl in Hprobe.
    assert (∃ w1, (∀ n, n ≠ name → hearts w1 !! n = hearts w !! n)
              ∧ _clients w1 = _clients w
              ∧ (let (response, w0) :=
                   match r with
                   | Ok a =>
                       (body ← (match content a with
                                | NoContent => mret EmptyObject
                                | _ => json a
                                end);
                        mret (<[name:=Healthy body]> results)) (moved name oh evs w)
                   | Raise e => (Raise e, moved name oh evs w)
                   end in
                 match response with
                 | Ok a => (Ok a, w0)
                 | Raise e =>
                     (record (Warned "Health check failed" [("profile", name)]);;
                      mret (<[name:=Unhealthy e]> results)) w0
                 end)
                = (Ok (<[name := probe name (hearts w !! name)]> results), w1))
      as (w1 & Hother & Hcl & ->).
    { destruct r as [response|e].
      - exists (moved name oh evs w). split; [intros; by apply hearts_moved_ne|].
        split; [reflexivity|]. rewrite bind_run, Hprobe.
        destruct (content response) eqn:Hc; try reflexivity;
          rewrite json_content by (rewrite Hc; discriminate); by rewrite Hc.
      - exists (emit (Warned "Health check failed" [("profile", name)])
                  (moved name oh evs w)).
        split; [intros n Hn; exact (hearts_moved_ne name n oh evs w Hn)|].
        split; [reflexivity|].
        by rewrite Hprobe. }
    destruct (IH (<[name := probe name (hearts w !! name)]> results) w1 Hnd)
      as (results' & w' & -> & Hin' & Hout').
    { eapply Forall_impl; [exact Hall|]. intros n (? & ? & ?). by rewrite Hcl. }
    exists results', w'. split; [reflexivity|]. split.
    + intros n [->|Hn]%elem_of_cons.
      * by rewrite Hout', lookup_insert_eq.
      * rewrite Hin' by done. rewrite Hother; [done|]. by intros ->.
    + intros n [Hne Hn]%not_elem_of_cons. rewrite Hout' by done.
      by rewrite lookup_insert_ne.
Qed.

Lemma health_check_all (w : World) :
  usable_keys (_clients w) →
  ∃ results,
    (health_check None w).1 = Ok results
    ∧ (∀ name, name ∈ _clients w →
         results !! name = Some (probe name (hearts w !! name)))
    ∧ (∀ name, name ∉ _clients w → results !! name = None).
Proof.
  intros [Hnd Hall]. unfold health_check. rewrite bind_run. unfold client_keys.
  destruct (check_profiles_spec (_clients w) ∅ w Hnd) as (results & w' & -> & Hin & Hout).
  { apply Forall_forall. intros n Hn.
    rewrite Forall_forall in Hall. destruct (Hall n Hn). done. }
  exists results. split; [reflexivity|]. split; [done|].
  intros name Hname. by rewrite Hout.
Qed.

(** C7.  With no profile argument [health_check] returns normally, with
    one entry for every configured profile and none besides.  The entry of
    a profile is [Healthy] with the response or [Unhealthy] with the error,
    and it is determined by the backend behind that profile alone: two
    fleets that agree on the backend of a profile report the same entry for
    it, whatever the other backends do. *)
Theorem health_check_isolation (w : World) :
  usable_keys (_clients w) →
  ∃ results,
    (health_check None w).1 = Ok results
    ∧ (∀ name, name ∈ _clients w →
         results !! name = Some (probe name (hearts w !! name)))
    ∧ (∀ name, name ∉ _clients w → results !! name = None)
    ∧ (∀ w2 name,
         _clients w2 = _clients w → name ∈ _clients w →
         hearts w2 !! name = hearts w !! name →
         ∃ results2, (health_check None w2).1 = Ok results2
                     ∧ results2 !! name = results !! name).
Proof.
  intros Hkeys. destruct (health_check_all w Hkeys) as (results & Hrun & Hin & Hout).
  exists results. repeat split; try done.
  intros w2 name Hcl Hname Hheart.
  destruct (health_check_all w2) as (results2 & Hrun2 & Hin2 & _).
  { by rewrite Hcl. }
  exists results2. split; [done|].
  rewrite Hin2 by (by rewrite Hcl). rewrite Hin by done. by rewrite Hheart.
Qed.

Lemma fleet_profiles_usable : usable_keys fleet_profiles.
Proof.
  split; [apply (bool_decide_unpack _); vm_compute; exact I|].
  repeat constructor.
Qed.

Lemma health_check_isolation_witness :
  let down := empty_heart [ConnectFails; ConnectFails; ConnectFails] in
  ∃ results,
    (health_check None (world_with "work" down)).1 = Ok results
    ∧ results !! "work" = Some (Unhealthy ConnectError)
    ∧ results !! "personal" = Some (Healthy (HealthBody "healthy" "mock-1.0.0"))
    ∧ results !! "research" = Some (Healthy (HealthBody "healthy" "mock-1.0.0")).
Proof.
  intros down.
  destruct (health_check_isolation (world_with "work" down))
    as (results & Hrun & Hin & _).
  { split; [apply (bool_decide_unpack _); vm_compute; exact I|].
    repeat constructor. }
  exists results. split; [exact Hrun|].
  split; [|split]; rewrite Hin; try reflexivity;
    apply (bool_decide_unpack _); vm_compute; exact I.
Defined.
(** ** What a computation adds to the log *)

Lemma sequential_app (e1 e2 : list Event) :
  sequential e1 → sequential e2 → sequential (e1 ++ e2).
Proof. induction 1; intros; simpl; [done|by constructor; auto..]. Qed.

Lemma only_nil (φ : Event → Prop) : only φ [].
Proof. split; constructor. Qed.

Lemma only_app (φ : Event → Prop) (e1 e2 : list Event) :
  only φ e1 → only φ e2 → only φ (e1 ++ e2).
Proof. intros [??] [??]. split; [by apply Forall_app|by apply sequential_app]. Qed.

Lemma only_impl (φ ψ : Event → Prop) :
  (∀ e, φ e → ψ e) → ∀ evs, only φ evs → only ψ evs.
Proof. intros Himpl evs [??]. split; [by eapply Forall_impl|done]. Qed.

Lemma emits_impl {A : Type} (c : M A) (P Q : list Event → Prop) :
  (∀ evs, P evs → Q evs) → emits c P → emits c Q.
Proof. intros Himpl Hc w. destruct (Hc w) as (evs & ? & ?). eauto. Qed.

Lemma emits_ret {A : Type} (a : A) (P : list Event → Prop) :
  P [] → emits (mret a : M A) P.
Proof. intros HP w. exists []. by rewrite app_nil_r. Qed.

Lemma emits_raise {A : Type} (e : Exn) (P : list Event → Prop) :
  P [] → emits (raise e : M A) P.
Proof. intros HP w. exists []. by rewrite app_nil_r. Qed.

Lemma emits_bind {A B : Type} (c : M A) (f : A → M B) (P Q : list Event → Prop) :
  emits c P → (∀ a, emits (f a) Q) → Q [] →
  emits (c ≫= f) (λ evs, ∃ e1 e2, evs = e1 ++ e2 ∧ P e1 ∧ Q e2).
Proof.
  intros Hc Hf HQ w. rewrite bind_run. destruct (Hc w) as (e1 & Hlog & HP).
  destruct (c w) as [[a|e] w1]; simpl in *.
  - destruct (Hf a w1) as (e2 & Hlog2 & HQ2). exists (e1 ++ e2).
    split; [by rewrite Hlog2, Hlog, app_assoc|eauto].
  - exists e1. split; [done|]. exists e1, []. by rewrite app_nil_r.
Qed.

Lemma emits_bind_only {A B : Type} (c : M A) (f : A → M B) (φ : Event → Prop) :
  emits c (only φ) → (∀ a, emits (f a) (only φ)) → emits (c ≫= f) (only φ).
Proof.
  intros Hc Hf. eapply emits_impl; [|apply (emits_bind c f _ _ Hc Hf), only_nil].
  intros evs (e1 & e2 & -> & ? & ?). by apply only_app.
Qed.

Lemma emits_record (e : Event) (φ : Event → Prop) :
  off_wire e → φ e → emits (record e) (only φ).
Proof.
  intros Hoff He w. exists [e]. split; [reflexivity|].
  split; [by repeat constructor|]. by repeat constructor.
Qed.

Lemma exchange_events (wait : nat → Q) (name : string) (m : Method) (p : Path)
    (body : Json) (left k : nat) (oh : option Heart) :
  only (about m p) (exchange wait name m p body left k oh).2.
Proof.
  revert k oh. induction left as [|left IH]; intros k oh; rewrite exchange_eq;
    destruct (first_transmission m p body oh) as [r0 oh'];
    assert (only (about m p) [Sent name m p body; outcome_event name m p r0]) as Hone
      by (split; [|apply sequential_exchange; [|constructor]];
          destruct r0; repeat constructor);
    cbv zeta; destruct (checked r0) as [response|e];
    try destruct (retry_if_exception_type e); try exact Hone.
  specialize (IH (S k) oh').
  destruct (exchange wait name m p body left (S k) oh') as [[r oh2] evs2].
  cbn [snd] in *.
  apply only_app; [done|].
  apply (only_app _ [Slept (wait k)] evs2); [|done]. split; repeat constructor.
Qed.

Lemma emits_request (m : Method) (p : Path) (pn : option string) (body : Json) :
  emits (request m p pn body) (only (about m p)).
Proof.
  intros w. rewrite request_eq.
  destruct ((_get_client pn w).1) as [name|e].
  - pose proof (exchange_events backoff name m p body 2 1 (hearts w !! name)) as Hev.
    destruct (exchange backoff name m p body 2 1 (hearts w !! name)) as [[r oh] evs].
    exists evs. split; [reflexivity|done].
  - exists []. simpl. rewrite app_nil_r. split; [done|apply only_nil].
Qed.

Lemma emits_json (response : Response) (φ : Event → Prop) :
  emits (json response) (only φ).
Proof.
  unfold json. destruct (content response);
    first [apply emits_raise | apply emits_ret]; apply only_nil.
Qed.

Lemma emits_fetch_relations (space_id : string) (pn : option string) :
  emits (_fetch_existing_relations space_id pn) (only (about GET (Relations space_id))).
Proof.
  unfold _fetch_existing_relations, get.
  apply emits_bind_only; [apply emits_request|]. intros response.
  apply emits_bind_only; [apply emits_json|]. intros data.
  apply emits_ret, only_nil.
Qed.

Lemma emits_fetch_types (space_id : string) (pn : option string) :
  emits (_fetch_existing_types space_id pn) (only (about GET (Types space_id))).
Proof.
  unfold _fetch_existing_types, get.
  apply emits_bind_only; [apply emits_request|]. intros response.
  apply emits_bind_only; [apply emits_json|]. intros data.
  apply emits_ret, only_nil.
Qed.

Lemma emits_create_relation (space_id : string) (d : RelationDefinition)
    (pn : option string) :
  emits (_create_relation space_id d pn) (only (about POST (Relations space_id))).
Proof.
  unfold _create_relation, post.
  apply emits_bind_only; [apply emits_request|]. intros response.
  apply emits_bind_only; [apply emits_json|]. intros data.
  apply emits_ret, only_nil.
Qed.

Lemma emits_create_type (space_id : string) (d : TypeDefinition)
    (ids : list string) (pn : option string) :
  emits (_create_type space_id d ids pn) (only (about POST (Types space_id))).
Proof.
  unfold _create_type, post.
  apply emits_bind_only; [apply emits_request|]. intros response.
  apply emits_bind_only; [apply emits_json|]. intros data.
  apply emits_ret, only_nil.
Qed.

Lemma emits_create_missing_relations (space_id : string) (pn : option string)
    (missing : list RelationDefinition) (ids : gmap string string)
    (created : list string) :
  emits (create_missing_relations space_id pn missing ids created)
    (only (about POST (Relations space_id))).
Proof.
  revert ids created. induction missing as [|d missing IH]; intros ids created; simpl.
  - apply emits_ret, only_nil.
  - apply emits_bind_only; [apply emits_create_relation|]. intros rel_id.
    apply emits_bind_only; [by apply emits_record|]. intros _. apply IH.
Qed.

Lemma emits_resolve_relations (type_name : string) (ids : gmap string string)
    (rel_names acc : list string) :
  emits (resolve_relations type_name ids rel_names acc)
    (only (λ e, match e with Warned _ _ => True | _ => False end)).
Proof.
  revert acc. induction rel_names as [|n rel_names IH]; intros acc; simpl.
  - apply emits_ret, only_nil.
  - destruct (ids !! lower n) as [rel_id|]; [destruct (truthy rel_id)|];
      try apply IH;
      (apply emits_bind_only; [by apply emits_record|]; intros _; apply IH).
Qed.

Lemma emits_create_missing_types (space_id : string) (pn : option string)
    (ids : gmap string string) (missing : list TypeDefinition)
    (created : list string) :
  emits (create_missing_types space_id pn ids missing created)
    (only (λ e, ¬ creates_relation e)).
Proof.
  revert created. induction missing as [|d missing IH]; intros created; simpl.
  - apply emits_ret, only_nil.
  - apply emits_bind_only.
    { eapply emits_impl; [|apply emits_resolve_relations].
      apply only_impl. intros [] ?; simpl; tauto. }
    intros relation_ids. apply emits_bind_only.
    { eapply emits_impl; [|apply emits_create_type].
      apply only_impl. intros e Ha Hc.
      destruct e as [? m p ?|? m p ?|? m p ?|?|??]; simpl in *; try done;
        destruct Ha as [-> ->]; done. }
    intros _. apply emits_bind_only; [|intros _; apply IH].
    apply emits_record; [done|tauto].
Qed.

Lemma emits_get_router (φ : Event → Prop) : emits get_router (only φ).
Proof.
  intros w. exists []. unfold get_router. rewrite app_nil_r.
  destruct (_router w); (split; [done|apply only_nil]).
Qed.

(** The log of a reconciliation run: a first part without any event of a
    type creation, then a second part without any event of a relation
    creation. *)
Lemma emits_ensure_ontology (input : EnsureOntologyInput) :
  emits (ensure_ontology input)
    (λ evs, ∃ e1 e2, evs = e1 ++ e2
       ∧ only (λ e, ¬ creates_type e) e1 ∧ only (λ e, ¬ creates_relation e) e2).
Proof.
  set (φ1 := λ e, ¬ creates_type e). set (φ2 := λ e, ¬ creates_relation e).
  assert (∀ A B (c : M A) (f : A → M B), emits c (only φ1) →
            (∀ a, emits (f a) (λ evs, ∃ e1 e2, evs = e1 ++ e2 ∧ only φ1 e1 ∧ only φ2 e2)) →
            emits (c ≫= f) (λ evs, ∃ e1 e2, evs = e1 ++ e2 ∧ only φ1 e1 ∧ only φ2 e2))
    as Hleft.
  { intros A B c f Hc Hf. eapply emits_impl; [|apply (emits_bind c f _ _ Hc Hf)].
    - intros evs (e1 & e & -> & H1 & e1' & e2 & -> & H1' & H2).
      exists (e1 ++ e1'), e2. rewrite app_assoc. split; [done|].
      split; [by apply only_app|done].
    - exists [], []. split; [done|]. split; apply only_nil. }
  assert (∀ m p, (m = GET ∨ ∃ s, p = Relations s) → ∀ e, about m p e → φ1 e) as Habout.
  { intros m p Hmp e Ha Hc.
    destruct e as [? m' p' ?|? m' p' ?|? m' p' ?|?|??]; simpl in *; try done;
      destruct Ha as [-> ->]; destruct Hmp as [->|[? ->]]; try done;
      by destruct m. }
  unfold ensure_ontology.
  apply Hleft; [apply emits_get_router|]. intros _.
  apply Hleft.
  { eapply emits_impl; [|apply emits_fetch_relations].
    apply only_impl, Habout. by left. }
  intros existing_rels. apply Hleft.
  { eapply emits_impl; [|apply emits_fetch_types].
    apply only_impl, Habout. by left. }
  intros existing_typs.
  destruct (diff_relations _ _ _ _ _) as [[missing_rels skipped_rels] ids].
  destruct (diff_types _ _ _ _) as [missing_typs skipped_typs].
  destruct (in_dry_run input).
  { apply emits_ret. exists [], []. split; [done|]. split; apply only_nil. }
  apply (emits_bind _ _ (only φ1) (only φ2)).
  - eapply emits_impl; [|apply emits_create_missing_relations].
    apply only_impl, Habout. right. eauto.
  - intros [ids' created_rels]. apply emits_bind_only.
    + apply emits_create_missing_types.
    + intros created_typs. apply emits_ret, only_nil.
  - apply only_nil.
Qed.


Lemma emits_new_events {A : Type} (c : M A) (P : list Event → Prop) (w : World) :
  emits c P →
  log (c w).2 = log w ++ new_events w (c w).2 ∧ P (new_events w (c w).2).
Proof.
  intros Hc. destruct (Hc w) as (evs & Hlog & HP). unfold new_events.
  rewrite Hlog, drop_app_length. done.
Qed.

(** C3.  In the events of one reconciliation run, whatever its outcome,
    every event of a type creation (the request put on the wire or its
    completion) comes after every event of a relation creation, so no type
    creation is requested before all relation creations have completed; and
    every request is completed before the next event, so no two requests are
    ever in flight. *)
Theorem relations_before_types (input : EnsureOntologyInput) (w : World) :
  let w' := (ensure_ontology input w).2 in
  let evs := new_events w w' in
  log w' = log w ++ evs
  ∧ (∀ i j e1 e2,
       evs !! i = Some e1 → evs !! j = Some e2 →
       creates_type e1 → creates_relation e2 → j < i)
  ∧ sequential evs.
Proof.
  destruct (emits_new_events _ _ w (emits_ensure_ontology input))
    as (Hlog & e1 & e2 & Hevs & [H1 Hs1] & [H2 Hs2]).
  split; [exact Hlog|]. cbv zeta. rewrite Hevs. split.
  - intros i j x y Hi Hj Hx Hy.
    assert (length e1 ≤ i).
    { destruct (decide (i < length e1)) as [Hlt|]; [|lia].
      rewrite lookup_app_l in Hi by done.
      rewrite Forall_lookup in H1. by destruct (H1 i x Hi). }
    assert (j < length e1); [|lia].
    destruct (decide (j < length e1)) as [|Hge]; [done|].
    rewrite lookup_app_r in Hj by lia.
    rewrite Forall_lookup in H2. by destruct (H2 _ y Hj).
  - by apply sequential_app.
Qed.
(** ** Successful requests *)

Lemma with_wire_with_wire (ws ws' : list Wire) (h : Heart) :
  with_wire ws' (with_wire ws h) = with_wire ws' h.
Proof. reflexivity. Qed.

Lemma with_wire_id (h : Heart) : with_wire (wire h) h = h.
Proof. by destruct h. Qed.

Lemma status_of_not_success (s : ErrorStatus) (b : Body) :
  is_success (mkResponse (status_of s) b) = false.
Proof. by destruct s. Qed.

(** A transmission that ends well was delivered: the backend has handled
    the request, after some entries of its script were used. *)
Lemma transmit_Ok (m : Method) (p : Path) (body : Json) (h h' : Heart)
    (response : Response) :
  transmit m p body h = (Ok response, h') → is_success response = true →
  ∃ ws, handle m p body (with_wire ws h) = (response, h').
Proof.
  unfold transmit. destruct (wire h) as [|[| | | |s] ws].
  - destruct (handle m p body (with_wire [] h)) eqn:Hh. intros [= <- <-] _. eauto.
  - destruct (handle m p body (with_wire ws h)) eqn:Hh. intros [= <- <-] _. eauto.
  - discriminate.
  - discriminate.
  - discriminate.
  - intros [= <- <-]. by rewrite status_of_not_success.
Qed.

(** A transmission that fails, or is refused, leaves the dictionaries of
    the backend alone. *)
Lemma transmit_retry (m : Method) (p : Path) (body : Json) (h h' : Heart)
    (r0 : Result Response) (e : Exn) :
  transmit m p body h = (r0, h') → checked r0 = Raise e →
  retry_if_exception_type e = true →
  ∃ ws, h' = with_wire ws h.
Proof.
  unfold transmit. destruct (wire h) as [|[| | | |s] ws].
  - destruct (handle m p body (with_wire [] h)) as [response h1].
    intros [= <- <-]. simpl. destruct (is_success response); [done|].
    by intros [= <-].
  - destruct (handle m p body (with_wire ws h)) as [response h1].
    intros [= <- <-]. simpl. destruct (is_success response); [done|].
    by intros [= <-].
  - intros [= <- <-]; eauto.
  - intros [= <- <-]; eauto.
  - intros [= <- <-]; eauto.
  - intros [= <- <-]. simpl. rewrite status_of_not_success. by intros [= <-].
Qed.

Lemma exchange_Ok (wait : nat → Q) (name : string) (m : Method) (p : Path)
    (body : Json) (left k : nat) (oh oh' : option Heart) (response : Response)
    (evs : list Event) :
  exchange wait name m p body left k oh = (Ok response, oh', evs) →
  ∃ h h' ws, oh = Some h ∧ oh' = Some h'
    ∧ handle m p body (with_wire ws h) = (response, h')
    ∧ Sent name m p body ∈ evs.
Proof.
  revert k oh evs. induction left as [|left IH]; intros k oh evs;
    rewrite exchange_eq; unfold first_transmission;
    (destruct oh as [h|]; [destruct (transmit m p body h) as [r0 h1] eqn:Ht|]);
    cbv zeta; simpl.
  1,3: destruct (checked r0) as [resp|e] eqn:Hchk;
       [|destruct (retry_if_exception_type e) eqn:Hre].
  all: try discriminate.
  1,2: intros [= <- <- <-];
       destruct r0 as [resp0|]; [|discriminate]; simpl in Hchk;
       destruct (is_success resp0) eqn:Hs; [|discriminate]; simplify_eq;
       destruct (transmit_Ok _ _ _ _ _ _ Ht Hs) as [ws Hh];
       exists h, h1, ws; repeat split; try done; (apply elem_of_cons; by left).
  - destruct (exchange wait name m p body left (S k) (Some h1)) as [[r oh2] evs2] eqn:Hex.
    intros [= -> <- <-].
    apply IH in Hex as (h0 & h' & ws & [= <-] & -> & Hh & Hin).
    destruct (transmit_retry _ _ _ _ _ _ _ Ht Hchk Hre) as [ws1 ->].
    exists h, h', ws. repeat split; try done. apply elem_of_cons; by left.
  - destruct (exchange wait name m p body left (S k) None) as [[r oh2] evs2] eqn:Hex.
    intros [= -> <- <-].
    by apply IH in Hex as (h0 & h' & ws & [=] & _).
Qed.

Lemma request_Ok (m : Method) (p : Path) (pn : option string) (body : Json)
    (w w' : World) (response : Response) :
  request m p pn body w = (Ok response, w') →
  ∃ t h h' ws evs,
    (_get_client pn w).1 = Ok t ∧ hearts w !! t = Some h
    ∧ handle m p body (with_wire ws h) = (response, h')
    ∧ w' = moved t (Some h') evs w
    ∧ Sent t m p body ∈ evs.
Proof.
  rewrite request_eq. destruct (_get_client pn w).1 as [t|e]; [|discriminate].
  destruct (exchange backoff t m p body 2 1 (hearts w !! t)) as [[r oh] evs] eqn:Hex.
  intros [= -> <-].
  apply exchange_Ok in Hex as (h & h' & ws & Hh & -> & Hhandle & Hin).
  exists t, h, h', ws, evs. done.
Qed.

Lemma moved_id (t : string) (h : Heart) (w : World) :
  hearts w !! t = Some h → moved t (Some (with_wire (wire h) h)) [] w = w.
Proof.
  intros Hh. unfold moved. rewrite with_wire_id, insert_id, app_nil_r by done.
  by destruct w.
Qed.

Lemma moved_again (t : string) (h1 h2 : Heart) (e1 e2 : list Event) (w : World) :
  moved t (Some h2) e2 (moved t (Some h1) e1 w) = moved t (Some h2) (e1 ++ e2) w.
Proof. apply moved_moved. Qed.

Lemma moved_emit (t : string) (h : Heart) (evs : list Event) (e : Event) (w : World) :
  emit e (moved t (Some h) evs w) = moved t (Some h) (evs ++ [e]) w.
Proof.
  rewrite emit_moved, (moved_name_None "" t). apply moved_moved.
Qed.

Lemma _fetch_existing_relations_Ok (space_id : string) (pn : option string)
    (w w' : World) (existing : list AnyTypeRelation) :
  _fetch_existing_relations space_id pn w = (Ok existing, w') →
  ∃ t h ws evs,
    (_get_client pn w).1 = Ok t ∧ hearts w !! t = Some h
    ∧ existing = snapshot_relations space_id h
    ∧ w' = moved t (Some (with_wire ws h)) evs w.
Proof.
  unfold _fetch_existing_relations, get.
  intros (response & w1 & Hreq & Hrest)%bind_Ok_inv.
  apply request_Ok in Hreq as (t & h & h' & ws & evs & Ht & Hh & Hhandle & -> & _).
  simpl in Hhandle. injection Hhandle as <- <-.
  rewrite bind_run in Hrest. simpl in Hrest. injection Hrest as <- <-.
  exists t, h, ws, evs. done.
Qed.

Lemma _fetch_existing_types_Ok (space_id : string) (pn : option string)
    (w w' : World) (existing : list AnyTypeType) :
  _fetch_existing_types space_id pn w = (Ok existing, w') →
  ∃ t h ws evs,
    (_get_client pn w).1 = Ok t ∧ hearts w !! t = Some h
    ∧ existing = snapshot_types space_id h
    ∧ w' = moved t (Some (with_wire ws h)) evs w.
Proof.
  unfold _fetch_existing_types, get.
  intros (response & w1 & Hreq & Hrest)%bind_Ok_inv.
  apply request_Ok in Hreq as (t & h & h' & ws & evs & Ht & Hh & Hhandle & -> & _).
  simpl in Hhandle. injection Hhandle as <- <-.
  rewrite bind_run in Hrest. simpl in Hrest. injection Hrest as <- <-.
  exists t, h, ws, evs. done.
Qed.

Lemma _create_relation_Ok (space_id : string) (d : RelationDefinition)
    (pn : option string) (w w' : World) (rel_id : string) :
  _create_relation space_id d pn w = (Ok rel_id, w') →
  ∃ t h ws evs,
    (_get_client pn w).1 = Ok t ∧ hearts w !! t = Some h
    ∧ rel_id = gen_id "rel_" h
    ∧ w' = moved t
             (Some (with_wire ws (create_relation space_id (relation_payload d) h).2))
             evs w.
Proof.
  unfold _create_relation, post.
  intros (response & w1 & Hreq & Hrest)%bind_Ok_inv.
  apply request_Ok in Hreq as (t & h & h' & ws & evs & Ht & Hh & Hhandle & -> & _).
  simpl in Hhandle. injection Hhandle as <- <-.
  rewrite bind_run in Hrest. simpl in Hrest. injection Hrest as <- <-.
  exists t, h, ws, evs. done.
Qed.

Lemma _create_type_Ok (space_id : string) (d : TypeDefinition)
    (relation_ids : list string) (pn : option string) (w w' : World)
    (type_id : string) :
  _create_type space_id d relation_ids pn w = (Ok type_id, w') →
  ∃ t h ws evs,
    (_get_client pn w).1 = Ok t ∧ hearts w !! t = Some h
    ∧ w' = moved t
             (Some (with_wire ws
                      (create_type space_id (type_payload d relation_ids) h).2))
             evs w
    ∧ Sent t POST (Types space_id) (TypeBody (type_payload d relation_ids)) ∈ evs.
Proof.
  unfold _create_type, post.
  intros (response & w1 & Hreq & Hrest)%bind_Ok_inv.
  apply request_Ok in Hreq as (t & h & h' & ws & evs & Ht & Hh & Hhandle & -> & Hin).
  simpl in Hhandle. injection Hhandle as <- <-.
  rewrite bind_run in Hrest. simpl in Hrest. injection Hrest as <- <-.
  exists t, h, ws, evs. done.
Qed.

Lemma post_relations_with_wire (space_id : string) (missing : list RelationDefinition)
    (ws : list Wire) (h : Heart) :
  post_relations space_id missing (with_wire ws h)
  = with_wire ws (post_relations space_id missing h).
Proof.
  revert h. induction missing as [|d missing IH]; intros h; [done|].
  cbn [post_relations].
  exact (IH (create_relation space_id (relation_payload d) h).2).
Qed.

Lemma created_ids_with_wire (space_id : string) (missing : list RelationDefinition)
    (ws : list Wire) (h : Heart) (ids : gmap string string) :
  created_ids space_id missing (with_wire ws h) ids
  = created_ids space_id missing h ids.
Proof.
  revert h ids. induction missing as [|d missing IH]; intros h ids; [done|].
  cbn [created_ids].
  exact (IH (create_relation space_id (relation_payload d) h).2 _).
Qed.

Lemma post_types_with_wire (space_id : string) (ids : gmap string string)
    (missing : list TypeDefinition) (ws : list Wire) (h : Heart) :
  post_types space_id ids missing (with_wire ws h)
  = with_wire ws (post_types space_id ids missing h).
Proof.
  revert h. induction missing as [|d missing IH]; intros h; [done|].
  cbn [post_types].
  exact (IH (create_type space_id
               (type_payload d (resolve ids (td_relations d))) h).2).
Qed.

Lemma create_missing_relations_Ok (space_id : string) (pn : option string)
    (t : string) (missing : list RelationDefinition) (ids ids' : gmap string string)
    (created created' : list string) (w w' : World) (h : Heart) :
  (_get_client pn w).1 = Ok t → hearts w !! t = Some h →
  create_missing_relations space_id pn missing ids created w = (Ok (ids', created'), w') →
  ids' = created_ids space_id missing h ids
  ∧ created' = created ++ (rd_name <$> missing)
  ∧ ∃ ws evs,
      w' = moved t (Some (with_wire ws (post_relations space_id missing h))) evs w.
Proof.
  revert ids created w h. induction missing as [|d missing IH];
    intros ids created w h Ht Hh; simpl.
  - intros [= <- <- <-]. rewrite app_nil_r. repeat split.
    exists (wire h), []. by rewrite moved_id.
  - intros (rel_id & w1 & Hcreate & Hrest)%bind_Ok_inv.
    apply _create_relation_Ok in Hcreate
      as (t' & h' & ws & evs & Ht' & Hh' & -> & ->).
    rewrite Ht in Ht'. injection Ht' as <-. rewrite Hh in Hh'. injection Hh' as <-.
    apply bind_Ok_inv in Hrest as ([] & w2 & Hsleep & Hrest).
    injection Hsleep as <-. rewrite moved_emit in Hrest.
    apply IH with (h := with_wire ws (create_relation space_id (relation_payload d) h).2)
      in Hrest as (-> & -> & ws' & evs' & ->).
    + rewrite created_ids_with_wire, post_relations_with_wire, <- app_assoc.
      repeat split. exists ws', ((evs ++ [Slept (5 # 100)]) ++ evs').
      by rewrite moved_again.
    + by rewrite moved_frame.
    + apply hearts_moved.
Qed.

Lemma resolve_relations_run (type_name : string) (ids : gmap string string)
    (rel_names acc : list string) (w : World) :
  resolve_relations type_name ids rel_names acc w
  = (Ok (acc ++ resolve ids rel_names),
     moved "" None (warnings type_name ids rel_names) w).
Proof.
  revert acc w. induction rel_names as [|n rel_names IH]; intros acc w; simpl.
  - by rewrite app_nil_r, moved_nil.
  - unfold resolve, warnings, resolved. simpl.
    destruct (ids !! lower n) as [rel_id|]; [destruct (truthy rel_id)|]; simpl.
    + rewrite IH. by rewrite <- app_assoc.
    + rewrite bind_run. unfold record. rewrite IH, emit_moved, moved_moved. done.
    + rewrite bind_run. unfold record. rewrite IH, emit_moved, moved_moved. done.
Qed.
Lemma create_missing_types_Ok (space_id : string) (pn : option string)
    (t : string) (ids : gmap string string) (missing : list TypeDefinition)
    (created created' : list string) (w w' : World) (h : Heart) :
  (_get_client pn w).1 = Ok t → hearts w !! t = Some h →
  create_missing_types space_id pn ids missing created w = (Ok created', w') →
  created' = created ++ (td_name <$> missing)
  ∧ ∃ ws evs,
      w' = moved t (Some (with_wire ws (post_types space_id ids missing h))) evs w
      ∧ ∀ type_def, type_def ∈ missing →
          Sent t POST (Types space_id) (type_request ids type_def) ∈ evs
          ∧ ∀ e, e ∈ warnings (td_name type_def) ids (td_relations type_def) →
                 e ∈ evs.
Proof.
  revert created w h. induction missing as [|d missing IH];
    intros created w h Ht Hh; simpl.
  - intros [= <- <-]. rewrite app_nil_r. split; [done|].
    exists (wire h), []. rewrite moved_id by done. split; [done|].
    by intros ? ?%elem_of_nil.
  - rewrite bind_run, resolve_relations_run. simpl.
    intros (type_id & w1 & Hcreate & Hrest)%bind_Ok_inv.
    apply _create_type_Ok in Hcreate
      as (t' & h' & ws & evs & Ht' & Hh' & -> & Hsent).
    rewrite moved_frame, Ht in Ht'. injection Ht' as <-.
    change (hearts w !! t = Some h') in Hh'. rewrite Hh in Hh'. injection Hh' as <-.
    apply bind_Ok_inv in Hrest as ([] & w2 & Hsleep & Hrest).
    injection Hsleep as <-.
    rewrite moved_emit, (moved_name_None "" t), moved_moved in Hrest.
    apply IH with (h := with_wire ws (create_type space_id
                      (type_payload d (resolve ids (td_relations d))) h).2)
      in Hrest as (-> & ws' & evs' & -> & Hall).
    + rewrite post_types_with_wire, <- app_assoc. split; [done|].
      exists ws', ((warnings (td_name d) ids (td_relations d) ++ evs ++ [Slept (5 # 100)])
                   ++ evs').
      rewrite moved_again. split; [done|].
      intros type_def [->|Hin]%elem_of_cons.
      * split.
        -- apply elem_of_app. left. apply elem_of_app. right.
           apply elem_of_app. by left.
        -- intros e He. apply elem_of_app. left. apply elem_of_app. by left.
      * destruct (Hall type_def Hin) as [Hs Hw]. split.
        -- apply elem_of_app. by right.
        -- intros e He. apply elem_of_app. right. by apply Hw.
    + by rewrite moved_frame.
    + apply hearts_moved.
Qed.

(** A run that completes has talked to one backend; its output and the
    backend it leaves are those of [reconciled] and [reconciled_heart],
    and it has requested every missing type with the identifiers that
    resolve and warned about every reference that does not. *)
Lemma ensure_ontology_Ok (input : EnsureOntologyInput) (w w' : World)
    (out : EnsureOntologyOutput) :
  ensure_ontology input w = (Ok out, w') →
  ∃ t h ws evs,
    (_get_client (in_profile_name input) w).1 = Ok t
    ∧ hearts w !! t = Some h
    ∧ out = reconciled input h
    ∧ w' = moved t (Some (with_wire ws (reconciled_heart input h))) evs w
    ∧ (in_dry_run input = false →
       ∀ type_def, type_def ∈ (planned_types input h).1 →
         Sent t POST (Types (in_space_id input))
           (type_request (final_ids input h) type_def) ∈ evs
         ∧ ∀ e, e ∈ warnings (td_name type_def) (final_ids input h)
                      (td_relations type_def) → e ∈ evs).
Proof.
  unfold ensure_ontology.
  intros ([] & w0 & Hrouter & Hrun)%bind_Ok_inv.
  assert (w0 = w) as ->.
  { unfold get_router in Hrouter. by destruct (_router w); simplify_eq. }
  apply bind_Ok_inv in Hrun as (existing_rels & w1 & Hrels & Hrun).
  apply _fetch_existing_relations_Ok in Hrels as (t & h & ws1 & evs1 & Ht & Hh & -> & ->).
  apply bind_Ok_inv in Hrun as (existing_typs & w2 & Htyps & Hrun).
  apply _fetch_existing_types_Ok in Htyps as (t' & h' & ws2 & evs2 & Ht' & Hh' & -> & ->).
  rewrite moved_frame, Ht in Ht'. injection Ht' as <-.
  rewrite hearts_moved in Hh'. injection Hh' as <-.
  rewrite moved_again in Hrun.
  exists t, h.
  change (snapshot_types (in_space_id input) (with_wire ws1 h))
    with (snapshot_types (in_space_id input) h) in Hrun.
  unfold reconciled, reconciled_heart, planned_diff, final_ids.
  fold (planned_relations input h) in Hrun. fold (planned_types input h) in Hrun.
  destruct (planned_relations input h) as [[missing_rels skipped_rels] ids] eqn:Hpr.
  destruct (planned_types input h) as [missing_typs skipped_typs] eqn:Hpt.
  simpl. destruct (in_dry_run input).
  - injection Hrun as <- <-. exists ws2, (evs1 ++ evs2). by repeat split.
  - apply bind_Ok_inv in Hrun as ([ids' created_rels] & w3 & Hcr & Hrun).
    apply create_missing_relations_Ok with (t := t) (h := with_wire ws2 h) in Hcr
      as (-> & -> & ws3 & evs3 & ->);
      [|by rewrite moved_frame|apply hearts_moved].
    rewrite moved_again, created_ids_with_wire, post_relations_with_wire in Hrun.
    apply bind_Ok_inv in Hrun as (created_typs & w4 & Hct & Hrun).
    apply create_missing_types_Ok
      with (t := t) (h := with_wire ws3 (post_relations (in_space_id input) missing_rels h))
      in Hct as (-> & ws4 & evs4 & -> & Hall);
      [|by rewrite moved_frame|apply hearts_moved].
    injection Hrun as <- <-.
    rewrite moved_again, post_types_with_wire.
    exists ws4, (((evs1 ++ evs2) ++ evs3) ++ evs4).
    repeat split; try done.
    + apply elem_of_app. right. by apply Hall.
    + intros e He. apply elem_of_app. right. by apply (Hall type_def).
Qed.
(** ** The similarity of a name with itself *)

Lemma elem_of_indices_from (x : ascii) (a : list ascii) (s j : nat) :
  j ∈ indices_from x a s ↔ s ≤ j ∧ a !! (j - s) = Some x.
Proof.
  revert s. induction a as [|y a IH]; intros s; simpl.
  - split; [by intros ?%elem_of_nil|]. by intros [_ ?].
  - destruct (decide (y = x)) as [->|Hne].
    + rewrite elem_of_cons, IH. split.
      * intros [->|[Hle Hj]].
        -- split; [lia|]. by rewrite Nat.sub_diag.
        -- split; [lia|]. by replace (j - s) with (S (j - S s)) by lia.
      * intros [Hle Hj]. destruct (decide (j = s)) as [->|]; [by left|right].
        split; [lia|]. by replace (j - s) with (S (j - S s)) in Hj by lia.
    + rewrite IH. split.
      * intros [Hle Hj]. split; [lia|]. by replace (j - s) with (S (j - S s)) by lia.
      * intros [Hle Hj]. destruct (decide (j = s)) as [->|].
        -- rewrite Nat.sub_diag in Hj. simpl in Hj. congruence.
        -- split; [lia|]. by replace (j - s) with (S (j - S s)) in Hj by lia.
Qed.

Lemma indices_from_sorted (x : ascii) (a : list ascii) (s : nat) :
  StronglySorted lt (indices_from x a s).
Proof.
  revert s. induction a as [|y a IH]; intros s; simpl; [constructor|].
  destruct (decide (y = x)); [|apply IH].
  constructor; [apply IH|]. apply Forall_forall. intros j Hj.
  apply elem_of_indices_from in Hj. lia.
Qed.

Lemma diag_S (a : list ascii) (i : nat) :
  diag a (S i) = if kept a i then S (diag a i) else 0.
Proof. reflexivity. Qed.

Lemma diag_le (a : list ascii) (i : nat) : diag a i ≤ i.
Proof.
  induction i as [|i IH]; [done|]. rewrite diag_S. destruct (kept a i); lia.
Qed.

Lemma j2len_get_empty (j : nat) : j2len_get ∅ j = 0.
Proof. by destruct j. Qed.

Lemma scan_row_self (a : list ascii) (i : nat) (j2len : gmap nat nat)
    (js : list nat) (new : gmap nat nat) (best : Match) :
  row_inv a i j2len → kept a i = true →
  StronglySorted lt js →
  (∀ j, j ∈ js → j < length a ∧ kept a j = true) →
  m_a best = m_b best → m_a best + m_size best ≤ S i →
  (∀ x, x ≤ i → diag a x ≤ m_size best) →
  (i ∈ js ∨ diag a (S i) ≤ m_size best) →
  ∃ new' best',
    scan_row j2len 0 (length a) i js new best = (new', best')
    ∧ (∀ j, new' !! j = if decide (j ∈ js) then Some (j2len_get j2len j + 1)
                         else new !! j)
    ∧ best_inv a (S i) best'.
Proof.
  intros [Hrow Hdiag] Hi. revert new best.
  induction js as [|j rest IH]; intros new best Hsorted Hjs Hab Hbound Hruns Hq.
  - exists new, best. split; [done|]. split.
    + intros j. by rewrite decide_False by apply not_elem_of_nil.
    + split; [done|]. split; [done|]. intros x Hx.
      destruct (decide (x = S i)) as [->|]; [|apply Hruns; lia].
      destruct Hq as [?%elem_of_nil|]; done.
  - apply StronglySorted_inv in Hsorted as [Hsorted Hlt].
    rewrite Forall_forall in Hlt.
    destruct (Hjs j) as [Hj Hkj]; [by left|].
    cbn [scan_row]. rewrite (bool_decide_eq_false_2 (j < 0)) by lia.
    rewrite (bool_decide_eq_false_2 (length a ≤ j)) by lia.
    destruct (Hrow j) as [Hpj Hpi].
    assert (diag a (S j) = S (diag a j)) as Hdj by (by rewrite diag_S, Hkj).
    assert (diag a (S i) = S (diag a i)) as Hdi by (by rewrite diag_S, Hi).
    set (k := j2len_get j2len j + 1).
    assert (∀ j', (if decide (j' ∈ rest) then Some (j2len_get j2len j' + 1)
                   else <[j:=k]> new !! j')
                  = if decide (j' ∈ j :: rest) then Some (j2len_get j2len j' + 1)
                    else new !! j') as Hmap.
    { intros j'. destruct (decide (j' ∈ rest)) as [Hin|Hnin].
      - rewrite decide_True; [done|]. by right.
      - destruct (decide (j' = j)) as [->|Hne].
        + rewrite decide_True by (by left). by rewrite lookup_insert_eq.
        + rewrite decide_False by (by intros [?|?]%elem_of_cons).
          by rewrite lookup_insert_ne. }
    destruct (decide (j = i)) as [->|Hne].
    + (* the diagonal *)
      assert (k = diag a (S i)) as Hk by (unfold k; rewrite Hdiag; lia).
      pose proof (diag_le a (S i)) as Hle.
      case_bool_decide as Hcmp.
      * destruct (IH (<[i:=k]> new) (mkMatch (i + 1 - k) (i + 1 - k) k))
          as (new' & best' & -> & Hnew & Hbest); cbn [m_a m_b m_size]; try done.
        -- intros j' Hj'. apply Hjs. by right.
        -- lia.
        -- intros x Hx. specialize (Hruns x Hx). lia.
        -- right. lia.
        -- exists new', best'. split; [done|]. split; [|done].
           intros j'. by rewrite Hnew, Hmap.
      * destruct (IH (<[i:=k]> new) best)
          as (new' & best' & -> & Hnew & Hbest); try done.
        -- intros j' Hj'. apply Hjs. by right.
        -- right. lia.
        -- exists new', best'. split; [done|]. split; [|done].
           intros j'. by rewrite Hnew, Hmap.
    + assert (k ≤ m_size best) as Hk.
      { destruct (decide (j < i)) as [Hlti|Hgei].
        - specialize (Hruns (S j) ltac:(lia)). unfold k. lia.
        - destruct Hq as [[->|Hin]%elem_of_cons|Hq]; [done| |unfold k; lia].
          specialize (Hlt i Hin). lia. }
      rewrite bool_decide_eq_false_2 by lia.
      destruct (IH (<[j:=k]> new) best)
        as (new' & best' & -> & Hnew & Hbest); try done.
      * intros j' Hj'. apply Hjs. by right.
      * destruct Hq as [[->|Hin]%elem_of_cons|Hq]; [done|by left|by right].
      * exists new', best'. split; [done|]. split; [|done].
        intros j'. by rewrite Hnew, Hmap.
Qed.

Lemma scan_rows_self (a : list ascii) (d i : nat) (j2len : gmap nat nat)
    (best : Match) :
  i + d = length a → row_inv a i j2len → best_inv a i best →
  best_inv a (length a) (scan_rows a a 0 (length a) (seq i d) j2len best).
Proof.
  revert i j2len best. induction d as [|d IH]; intros i j2len best Hlen Hrow Hbest.
  - simpl. by replace (length a) with i by lia.
  - cbn [seq scan_rows].
    destruct (lookup_lt_is_Some_2 a i ltac:(lia)) as [x Hx]. rewrite Hx.
    destruct Hbest as (Hab & Hbound & Hruns).
    unfold b2j_get. destruct (popular a x) eqn:Hpop.
    + (* a popular element has no entry in b2j *)
      cbn [scan_row]. apply IH; [lia| |].
      * split; [|rewrite j2len_get_empty, diag_S; unfold kept; by rewrite Hx, Hpop].
        intros j. rewrite j2len_get_empty. lia.
      * split; [done|]. split; [lia|]. intros y Hy.
        destruct (decide (y = S i)) as [->|]; [|apply Hruns; lia].
        rewrite diag_S. unfold kept. rewrite Hx, Hpop. simpl. lia.
    + assert (kept a i = true) as Hi by (unfold kept; by rewrite Hx, Hpop).
      destruct (scan_row_self a i j2len (indices_from x a 0) ∅ best)
        as (new' & best' & -> & Hnew & Hbest'); try done.
      * apply indices_from_sorted.
      * intros j [_ Hj]%elem_of_indices_from. rewrite Nat.sub_0_r in Hj.
        split; [by eapply lookup_lt_Some|]. unfold kept. by rewrite Hj, Hpop.
      * lia.
      * left. apply elem_of_indices_from. split; [lia|by rewrite Nat.sub_0_r].
      * apply IH; [lia| |done].
        assert (∀ j, j2len_get new' (S j)
                     = if decide (j ∈ indices_from x a 0)
                       then j2len_get j2len j + 1 else 0) as Hget.
        { intros j. unfold j2len_get at 1. rewrite Hnew.
          destruct (decide _); [done|]. by rewrite lookup_empty. }
        destruct Hrow as [Hrow Hdiag].
        assert (diag a (S i) = S (diag a i)) as Hdi by (by rewrite diag_S, Hi).
        split.
        -- intros [|j]; [simpl; lia|]. rewrite Hget.
           destruct (decide _) as [[_ Hj]%elem_of_indices_from|]; [|lia].
           rewrite Nat.sub_0_r in Hj.
           assert (diag a (S j) = S (diag a j)) as ->.
           { rewrite diag_S. unfold kept. by rewrite Hj, Hpop. }
           destruct (Hrow j). lia.
        -- rewrite Hget, decide_True, Hdiag; [lia|].
           apply elem_of_indices_from. split; [lia|by rewrite Nat.sub_0_r].
Qed.

Lemma same_elt_self (a : list ascii) (i : nat) :
  i < length a → same_elt a a i i = true.
Proof.
  intros Hi. unfold same_elt.
  destruct (lookup_lt_is_Some_2 a i Hi) as [x ->]. by rewrite bool_decide_eq_true_2.
Qed.

Lemma extend_left_self (a : list ascii) (fuel : nat) (m : Match) :
  m_a m = fuel → m_b m = fuel → m_a m + m_size m ≤ length a →
  extend_left a a 0 0 fuel m = mkMatch 0 0 (m_a m + m_size m).
Proof.
  revert m. induction fuel as [|fuel IH]; intros [ma mb ms]; cbn [m_a m_b m_size];
    intros -> -> Hlen; cbn [extend_left m_a m_b m_size]; [done|].
  rewrite (bool_decide_eq_true_2 (0 < S fuel)) by lia.
  replace (S fuel - 1) with fuel by lia.
  rewrite same_elt_self by lia. cbn [andb].
  rewrite IH; cbn [m_a m_b m_size]; try done; [|lia]. f_equal. lia.
Qed.

Lemma extend_right_self (a : list ascii) (fuel s : nat) :
  s + fuel ≤ length a →
  extend_right a a (length a) (length a) fuel (mkMatch 0 0 s) = mkMatch 0 0 (s + fuel).
Proof.
  revert s. induction fuel as [|fuel IH]; intros s Hlen;
    cbn [extend_right m_a m_b m_size].
  - f_equal. lia.
  - rewrite (bool_decide_eq_true_2 (0 + s < length a)) by lia.
    rewrite same_elt_self by lia. cbn [andb].
    rewrite IH by lia. f_equal. lia.
Qed.

Lemma find_longest_match_self (a : list ascii) :
  find_longest_match a a 0 (length a) 0 (length a) = mkMatch 0 0 (length a).
Proof.
  unfold find_longest_match. rewrite Nat.sub_0_r.
  destruct (scan_rows_self a (length a) 0 ∅ (mkMatch 0 0 0)) as (Hab & Hbound & _).
  - done.
  - split; [|done]. intros j. rewrite j2len_get_empty. lia.
  - split; [done|]. split; [simpl; lia|]. intros x Hx.
    replace x with 0 by lia. simpl. lia.
  - set (best := scan_rows a a 0 (length a) (seq 0 (length a)) ∅ (mkMatch 0 0 0)) in *.
    rewrite extend_left_self by done. cbn [m_a m_size].
    rewrite extend_right_self by lia. f_equal. lia.
Qed.

Lemma matches_self (a : list ascii) : matches a a = length a.
Proof.
  unfold matches, get_matching_blocks.
  replace (2 * length a + 1) with (S (2 * length a)) by lia.
  cbn [matching_blocks]. rewrite find_longest_match_self. cbn [m_a m_b m_size].
  destruct a as [|x a]; [done|].
  rewrite bool_decide_eq_false_2 by done.
  rewrite (bool_decide_eq_false_2 (0 < 0)) by lia. cbn [andb].
  rewrite (bool_decide_eq_false_2 (0 + length (x :: a) < length (x :: a))) by lia.
  cbn [andb].
  replace (2 * length (x :: a)) with (S (2 * length a + 1)) by (simpl; lia).
  cbn [matching_blocks]. simpl. lia.
Qed.

Lemma ratio_self (s : string) : (85 # 100 <= ratio s s)%Q.
Proof.
  unfold ratio. rewrite matches_self.
  set (n := length (String.list_ascii_of_string s)).
  case_bool_decide as Hn; [done|].
  unfold Qle. simpl Qnum. simpl Qden. lia.
Qed.

(** Every name is similar to itself. *)
Lemma similar_refl (name : string) : similar name name = true.
Proof. apply similar_iff, ratio_self. Qed.
(** ** Dry runs *)


(** ** The plan *)

Lemma _find_matching_type_Some (name : string) (existing : list AnyTypeType)
    (typ : AnyTypeType) :
  _find_matching_type name existing = Some typ →
  typ ∈ existing ∧ similar name (at_name typ) = true.
Proof.
  induction existing as [|x rest IH]; simpl; [done|].
  destruct (similar name (at_name x)) eqn:Hx.
  - intros [= ->]. split; [by left|done].
  - intros [? ?]%IH. split; [by right|done].
Qed.

Lemma _find_matching_type_None (name : string) (existing : list AnyTypeType) :
  _find_matching_type name existing = None ↔
  Forall (λ t, similar name (at_name t) = false) existing.
Proof.
  induction existing as [|x rest IH]; simpl.
  - split; auto.
  - destruct (similar name (at_name x)) eqn:Hx.
    + split; [discriminate|]. intros [Hx' _]%Forall_cons. congruence.
    + rewrite IH. split; [auto|]. by intros [_ ?]%Forall_cons.
Qed.

(** What steps 2 and 3 compute: the definitions without a match, in order,
    the names of the others, and a map whose keys are the lower-cased names
    of the matched definitions. *)
Lemma diff_relations_spec (defs : list RelationDefinition)
    (existing : list AnyTypeRelation) (missing : list RelationDefinition)
    (skipped : list string) (ids : gmap string string) :
  let unmatched d := _find_matching_relation (rd_name d) existing = None in
  (diff_relations defs existing missing skipped ids).1.1
  = missing ++ filter unmatched defs
  ∧ (diff_relations defs existing missing skipped ids).1.2
    = skipped ++ (rd_name <$> filter (λ d, ¬ unmatched d) defs)
  ∧ ∀ k, is_Some ((diff_relations defs existing missing skipped ids).2 !! k) ↔
         is_Some (ids !! k)
         ∨ ∃ d, d ∈ defs ∧ ¬ unmatched d ∧ lower (rd_name d) = k.
Proof.
  intros unmatched. revert missing skipped ids.
  induction defs as [|d defs IH]; intros missing skipped ids.
  - simpl. rewrite !app_nil_r. repeat split; [by left|].
    intros [?|(d & ?%elem_of_nil & _)]; done.
  - cbn [diff_relations].
    destruct (_find_matching_relation (rd_name d) existing) as [found|] eqn:Hfind.
    + destruct (IH missing (skipped ++ [rd_name d])
                  (<[lower (rd_name d) := ar_id found]> ids)) as (-> & -> & Hdom).
      rewrite filter_cons_False by (unfold unmatched; rewrite Hfind; by intros ?).
      rewrite filter_cons_True by (unfold unmatched; by rewrite Hfind).
      rewrite fmap_cons, <- app_assoc. repeat split.
      * intros [Hk|(d' & Hin & Hm & Hk)]%Hdom.
        -- destruct (decide (lower (rd_name d) = k)) as [<-|Hne].
           ++ right. exists d. split; [by left|]. split; [|done].
              unfold unmatched. by rewrite Hfind.
           ++ left. by rewrite lookup_insert_ne in Hk.
        -- right. exists d'. split; [by right|done].
      * intros Hk. apply Hdom.
        destruct Hk as [Hk|(d' & [->|Hin]%elem_of_cons & Hm & Hk)].
        -- left. destruct (decide (lower (rd_name d) = k)) as [<-|Hne].
           ++ rewrite lookup_insert_eq. eauto.
           ++ by rewrite lookup_insert_ne.
        -- left. subst k. rewrite lookup_insert_eq. eauto.
        -- right. eauto.
    + destruct (IH (missing ++ [d]) skipped ids) as (-> & -> & Hdom).
      rewrite filter_cons_True by done.
      rewrite filter_cons_False by (by intros H; apply H).
      rewrite <- app_assoc. repeat split.
      * intros [Hk|(d' & Hin & Hm & Hk)]%Hdom; [by left|].
        right. exists d'. split; [by right|done].
      * intros Hk. apply Hdom.
        destruct Hk as [Hk|(d' & [->|Hin]%elem_of_cons & Hm & Hk)];
          [by left|done|]. right. eauto.
Qed.

Lemma diff_types_spec (defs : list TypeDefinition) (existing : list AnyTypeType)
    (missing : list TypeDefinition) (skipped : list string) :
  let unmatched d := _find_matching_type (td_name d) existing = None in
  (diff_types defs existing missing skipped).1 = missing ++ filter unmatched defs
  ∧ (diff_types defs existing missing skipped).2
    = skipped ++ (td_name <$> filter (λ d, ¬ unmatched d) defs).
Proof.
  intros unmatched. revert missing skipped.
  induction defs as [|d defs IH]; intros missing skipped.
  - simpl. by rewrite !app_nil_r.
  - cbn [diff_types].
    destruct (_find_matching_type (td_name d) existing) as [found|] eqn:Hfind.
    + destruct (IH missing (skipped ++ [td_name d])) as (-> & ->).
      rewrite filter_cons_False by (unfold unmatched; rewrite Hfind; by intros ?).
      rewrite filter_cons_True by (unfold unmatched; by rewrite Hfind).
      by rewrite fmap_cons, <- app_assoc.
    + destruct (IH (missing ++ [d]) skipped) as (-> & ->).
      rewrite filter_cons_True by done.
      rewrite filter_cons_False by (by intros H; apply H).
      by rewrite <- app_assoc.
Qed.

Lemma created_ids_dom (space_id : string) (missing : list RelationDefinition)
    (h : Heart) (ids : gmap string string) (k : string) :
  is_Some (created_ids space_id missing h ids !! k) ↔
  is_Some (ids !! k) ∨ ∃ d, d ∈ missing ∧ lower (rd_name d) = k.
Proof.
  revert h ids. induction missing as [|d missing IH]; intros h ids.
  - simpl. split; [by left|]. intros [?|(d & ?%elem_of_nil & _)]; done.
  - cbn [created_ids]. rewrite IH. split.
    + intros [Hk|(d' & Hin & Hk)].
      * destruct (decide (lower (rd_name d) = k)) as [<-|Hne].
        -- right. exists d. split; [by left|done].
        -- left. by rewrite lookup_insert_ne in Hk.
      * right. exists d'. split; [by right|done].
    + intros [Hk|(d' & [->|Hin]%elem_of_cons & Hk)].
      * left. destruct (decide (lower (rd_name d) = k)) as [<-|Hne].
        -- rewrite lookup_insert_eq. eauto.
        -- by rewrite lookup_insert_ne.
      * left. subst k. rewrite lookup_insert_eq. eauto.
      * right. eauto.
Qed.

(** At the start of step 5 the keys of the name-to-identifier map are the
    lower-cased declared names of the manifest's relations, no others. *)
Lemma final_ids_dom (input : EnsureOntologyInput) (h : Heart) (k : string) :
  is_Some (final_ids input h !! k) ↔
  ∃ d, d ∈ mf_relations (in_manifest input) ∧ lower (rd_name d) = k.
Proof.
  unfold final_ids, planned_relations.
  destruct (diff_relations_spec (mf_relations (in_manifest input))
              (snapshot_relations (in_space_id input) h) [] [] ∅)
    as (Hmissing & _ & Hdom).
  rewrite created_ids_dom, Hdom, Hmissing. split.
  - intros [[Hk|(d & Hin & _ & Hk)]|(d & Hin & Hk)].
    + rewrite lookup_empty in Hk. by destruct Hk.
    + eauto.
    + apply elem_of_app in Hin as [?%elem_of_nil|Hin]; [done|].
      apply list_elem_of_filter in Hin as [_ Hin]. eauto.
  - intros (d & Hin & Hk).
    destruct (_find_matching_relation (rd_name d)
                (snapshot_relations (in_space_id input) h)) eqn:Hfind.
    + left. right. exists d. split; [done|]. split; [|done]. by rewrite Hfind.
    + right. exists d. split; [|done]. apply elem_of_app. right.
      by apply list_elem_of_filter.
Qed.
(** ** References of a created type *)

Lemma planned_types_missing (input : EnsureOntologyInput) (h : Heart)
    (type_def : TypeDefinition) :
  type_def ∈ (planned_types input h).1 ↔
  type_def ∈ mf_types (in_manifest input)
  ∧ _find_matching_type (td_name type_def)
      (snapshot_types (in_space_id input) h) = None.
Proof.
  unfold planned_types.
  destruct (diff_types_spec (mf_types (in_manifest input))
              (snapshot_types (in_space_id input) h) [] []) as [-> _].
  simpl. rewrite list_elem_of_filter. tauto.
Qed.

Lemma resolved_None (ids : gmap string string) (rel_name : string) :
  ids !! lower rel_name = None → resolved ids rel_name = None.
Proof. unfold resolved. by intros ->. Qed.

Lemma warnings_not_found (type_name : string) (ids : gmap string string)
    (rel_names : list string) (rel_name : string) :
  rel_name ∈ rel_names → resolved ids rel_name = None →
  not_found type_name rel_name ∈ warnings type_name ids rel_names.
Proof.
  intros Hin Hres. unfold warnings. apply list_elem_of_omap.
  exists rel_name. split; [done|]. by rewrite Hres.
Qed.

Lemma resolve_from (ids : gmap string string) (rel_names : list string)
    (rel_id : string) :
  rel_id ∈ resolve ids rel_names →
  ∃ rel_name, rel_name ∈ rel_names ∧ ids !! lower rel_name = Some rel_id.
Proof.
  unfold resolve. intros (rel_name & Hin & Hres)%list_elem_of_omap.
  exists rel_name. split; [done|]. unfold resolved in Hres.
  destruct (ids !! lower rel_name) as [x|]; [|done].
  destruct (truthy x); by simplify_eq.
Qed.

(** What step 5 sends and logs for every type it creates. *)
Lemma created_type_references (input : EnsureOntologyInput) (w w' : World)
    (out : EnsureOntologyOutput) :
  in_dry_run input = false →
  ensure_ontology input w = (Ok out, w') →
  ∃ t h,
    (_get_client (in_profile_name input) w).1 = Ok t ∧ hearts w !! t = Some h
    ∧ let ids := final_ids input h in
      (∀ k, is_Some (ids !! k) ↔
            ∃ d, d ∈ mf_relations (in_manifest input) ∧ lower (rd_name d) = k)
      ∧ ∀ type_def,
          type_def ∈ mf_types (in_manifest input) →
          _find_matching_type (td_name type_def)
            (snapshot_types (in_space_id input) h) = None →
          Sent t POST (Types (in_space_id input))
            (TypeBody (type_payload type_def (resolve ids (td_relations type_def))))
            ∈ new_events w w'
          ∧ (∀ rel_id, rel_id ∈ resolve ids (td_relations type_def) →
               ∃ rel_name d,
                 rel_name ∈ td_relations type_def
                 ∧ d ∈ mf_relations (in_manifest input)
                 ∧ lower (rd_name d) = lower rel_name
                 ∧ ids !! lower rel_name = Some rel_id)
          ∧ ∀ rel_name,
              rel_name ∈ td_relations type_def →
              (∀ d, d ∈ mf_relations (in_manifest input) →
                    lower (rd_name d) ≠ lower rel_name) →
              resolved ids rel_name = None
              ∧ not_found (td_name type_def) rel_name ∈ new_events w w'.
Proof.
  intros Hreal Hrun.
  apply ensure_ontology_Ok in Hrun as (t & h & ws & evs & Ht & Hh & -> & -> & Htypes).
  exists t, h. split; [done|]. split; [done|]. cbv zeta.
  split; [apply final_ids_dom|].
  intros type_def Hin Hmissing. rewrite new_events_moved.
  destruct (Htypes Hreal type_def) as [Hsent Hwarn].
  { by apply planned_types_missing. }
  split; [exact Hsent|]. split.
  - intros rel_id (rel_name & Hrel & Hid)%resolve_from.
    destruct (proj1 (final_ids_dom input h (lower rel_name))) as (d & Hd & Hk); [eauto|].
    exists rel_name, d. done.
  - intros rel_name Hrel Hundeclared.
    assert (resolved (final_ids input h) rel_name = None) as Hres.
    { apply resolved_None. apply eq_None_not_Some.
      intros (d & Hd & Hk)%final_ids_dom. by apply (Hundeclared d). }
    split; [done|]. by apply Hwarn, warnings_not_found.
Qed.

(** C10.  In a real run that completes, the identifiers sent with a
    created type are looked up in a map whose keys are exactly the
    lower-cased declared names of the manifest's relations.  A reference
    whose lower-cased name equals none of them is therefore unresolved: it
    contributes no identifier and a warning is logged for it, whether or not
    the backend holds a relation of that name and however similar the name
    is to a declared one.  Every identifier that is sent belongs to a
    reference equal, up to case, to a declared name. *)
Theorem exact_reference_resolution (input : EnsureOntologyInput) (w w' : World)
    (out : EnsureOntologyOutput) :
  in_dry_run input = false →
  ensure_ontology input w = (Ok out, w') →
  ∃ t h,
    (_get_client (in_profile_name input) w).1 = Ok t ∧ hearts w !! t = Some h
    ∧ let ids := final_ids input h in
      (∀ k, is_Some (ids !! k) ↔
            ∃ d, d ∈ mf_relations (in_manifest input) ∧ lower (rd_name d) = k)
      ∧ ∀ type_def,
          type_def ∈ mf_types (in_manifest input) →
          _find_matching_type (td_name type_def)
            (snapshot_types (in_space_id input) h) = None →
          Sent t POST (Types (in_space_id input))
            (TypeBody (type_payload type_def (resolve ids (td_relations type_def))))
            ∈ new_events w w'
          ∧ (∀ rel_id, rel_id ∈ resolve ids (td_relations type_def) →
               ∃ rel_name d,
                 rel_name ∈ td_relations type_def
                 ∧ d ∈ mf_relations (in_manifest input)
                 ∧ lower (rd_name d) = lower rel_name
                 ∧ ids !! lower rel_name = Some rel_id)
          ∧ ∀ rel_name,
              rel_name ∈ td_relations type_def →
              (∀ d, d ∈ mf_relations (in_manifest input) →
                    lower (rd_name d) ≠ lower rel_name) →
              resolved ids rel_name = None
              ∧ not_found (td_name type_def) rel_name ∈ new_events w w'.
Proof. apply created_type_references. Qed.

Lemma exact_reference_resolution_witness :
  let w := world_with "work" amount_heart in
  let w' := (ensure_ontology (crm_input false) w).2 in
  (* "Amount" is in the backend, "Status" resembles the declared "Statuses" *)
  "Amount" ∈ ar_name <$> snapshot_relations "space_1" amount_heart
  ∧ similar "Status" "Statuses" = true
  ∧ resolve (final_ids (crm_input false) amount_heart) ["email"; "Amount"; "Status"]
    = ["rel_a"]
  ∧ not_found "Invoice" "Amount" ∈ new_events w w'
  ∧ not_found "Invoice" "Status" ∈ new_events w w'.
Proof.
  intros w w'.
  destruct (ensure_ontology (crm_input false) w) as [r w1] eqn:Hrun.
  assert (∃ out, r = Ok out) as [out ->].
  { assert (r = (ensure_ontology (crm_input false) w).1) as -> by (by rewrite Hrun).
    eexists. vm_compute. reflexivity. }
  destruct (exact_reference_resolution (crm_input false) w w1 out eq_refl Hrun)
    as (t & h & Ht & Hh & _ & Htypes).
  assert (t = "work") as -> by (vm_compute in Ht; congruence).
  assert (h = amount_heart) as ->.
  { unfold w, world_with in Hh. simpl in Hh. rewrite lookup_insert_eq in Hh. congruence. }
  destruct (Htypes (type_definition "Invoice" ["email"; "Amount"; "Status"]))
    as (_ & _ & Hun).
  { apply elem_of_cons. by left. }
  { reflexivity. }
  split; [apply elem_of_cons; by left|].
  split; [vm_compute; reflexivity|].
  split; [vm_compute; reflexivity|].
  subst w'. cbn [snd].
  assert (∀ name, Forall (λ d, lower (rd_name d) ≠ name) (mf_relations crm_manifest) →
            ∀ d, d ∈ mf_relations (in_manifest (crm_input false)) →
                 lower (rd_name d) ≠ name) as Hforall.
  { intros name Hall d Hd. rewrite Forall_forall in Hall. by apply Hall. }
  split.
  - apply Hun.
    + apply elem_of_cons; right; apply elem_of_cons; by left.
    + apply Hforall, (bool_decide_unpack _); vm_compute; exact I.
  - apply Hun.
    + apply elem_of_cons; right; apply elem_of_cons; right; apply elem_of_cons; by left.
    + apply Hforall, (bool_decide_unpack _); vm_compute; exact I.
Defined.
(** ** Identifiers are never empty *)



Lemma _find_matching_relation_elem (name : string) (existing : list AnyTypeRelation)
    (rel : AnyTypeRelation) :
  _find_matching_relation name existing = Some rel →
  rel ∈ existing ∧ similar name (ar_name rel) = true.
Proof.
  intros H. apply _find_matching_relation_Some in H as (before & after & -> & _ & Hsim).
  split; [|done]. apply elem_of_app. right. by left.
Qed.




(** ** Unresolved references *)



(** ** The backend after a run *)

Lemma dict_set_fresh {V : Type} (k : string) (v : V) (d : list (string * V)) :
  k ∉ d.*1 → dict_set k v d = d ++ [(k, v)].
Proof.
  induction d as [|[k' v'] d IH]; simpl; [done|].
  intros [Hne Hnin]%not_elem_of_cons.
  rewrite decide_False by done. by rewrite IH.
Qed.

(** With fresh identifiers, creating the relations of [missing] appends one
    entry per definition, of the same name and in the space. *)
Lemma post_relations_store (space_id : string) (missing : list RelationDefinition)
    (h : Heart) :
  NoDup ((relations h).*1
         ++ ((λ i, "rel_" +:+ uuid4_hex h i) <$> seq (drawn h) (length missing))) →
  ∃ added,
    relations (post_relations space_id missing h) = relations h ++ added
    ∧ Forall2 (λ d kv, rr_name kv.2 = rd_name d ∧ rr_spaceId kv.2 = space_id)
        missing added
    ∧ types (post_relations space_id missing h) = types h
    ∧ drawn (post_relations space_id missing h) = drawn h + length missing
    ∧ uuid4_hex (post_relations space_id missing h) = uuid4_hex h.
Proof.
  revert h. induction missing as [|d missing IH]; intros h Hnd.
  - exists []. simpl. rewrite app_nil_r, Nat.add_0_r. repeat split. constructor.
  - cbn [post_relations length seq fmap list_fmap] in *.
    set (h1 := (create_relation space_id (relation_payload d) h).2).
    assert (relations h1 = relations h
              ++ [(gen_id "rel_" h, (create_relation space_id (relation_payload d) h).1)])
      as Hrel.
    { unfold h1. cbn [create_relation snd fst relations].
      apply dict_set_fresh. apply NoDup_app in Hnd as (_ & Hdisj & _).
      intros Hin. apply (Hdisj _ Hin). by left. }
    destruct (IH h1) as (added & Hadded & Hall & Htypes & Hdrawn & Huuid).
    { rewrite Hrel. change (drawn h1) with (S (drawn h)).
      change (uuid4_hex h1) with (uuid4_hex h).
      rewrite fmap_app, <- app_assoc. exact Hnd. }
    exists ((gen_id "rel_" h, (create_relation space_id (relation_payload d) h).1)
            :: added).
    rewrite Hadded, Hrel, <- app_assoc. split; [done|]. split.
    { constructor; [|done]. done. }
    rewrite Htypes, Hdrawn, Huuid. repeat split.
    change (drawn h1) with (S (drawn h)). lia.
Qed.

Lemma post_types_store (space_id : string) (ids : gmap string string)
    (missing : list TypeDefinition) (h : Heart) :
  NoDup ((types h).*1
         ++ ((λ i, "type_" +:+ uuid4_hex h i) <$> seq (drawn h) (length missing))) →
  ∃ added,
    types (post_types space_id ids missing h) = types h ++ added
    ∧ Forall2 (λ d kv, tr_name kv.2 = td_name d ∧ tr_spaceId kv.2 = space_id)
        missing added
    ∧ relations (post_types space_id ids missing h) = relations h.
Proof.
  revert h. induction missing as [|d missing IH]; intros h Hnd.
  - exists []. simpl. rewrite app_nil_r. repeat split. constructor.
  - cbn [post_types length seq fmap list_fmap] in *.
    set (rq := type_payload d (resolve ids (td_relations d))).
    set (h1 := (create_type space_id rq h).2).
    assert (types h1 = types h ++ [(gen_id "type_" h, (create_type space_id rq h).1)])
      as Htyp.
    { unfold h1. cbn [create_type snd fst types].
      apply dict_set_fresh. apply NoDup_app in Hnd as (_ & Hdisj & _).
      intros Hin. apply (Hdisj _ Hin). by left. }
    destruct (IH h1) as (added & Hadded & Hall & Hrels).
    { rewrite Htyp. change (drawn h1) with (S (drawn h)).
      change (uuid4_hex h1) with (uuid4_hex h).
      rewrite fmap_app, <- app_assoc. exact Hnd. }
    exists ((gen_id "type_" h, (create_type space_id rq h).1) :: added).
    rewrite Hadded, Htyp, <- app_assoc. split; [done|]. split.
    { constructor; [|done]. done. }
    by rewrite Hrels.
Qed.
Lemma fresh_subrange (keys : list string) (f : nat → string) (d n a k : nat) :
  a + k ≤ n → NoDup (keys ++ (f <$> seq d n)) → NoDup (keys ++ (f <$> seq (d + a) k)).
Proof.
  intros Hle. replace n with (a + (k + (n - a - k))) by lia.
  rewrite !seq_app, !fmap_app. intros Hnd. eapply sublist_NoDup; [exact Hnd|].
  apply sublist_app; [done|]. by apply sublist_inserts_l, sublist_inserts_r.
Qed.

Lemma planned_relations_length (input : EnsureOntologyInput) (h : Heart) :
  length (planned_relations input h).1.1 ≤ length (mf_relations (in_manifest input)).
Proof.
  unfold planned_relations.
  destruct (diff_relations_spec (mf_relations (in_manifest input))
              (snapshot_relations (in_space_id input) h) [] [] ∅) as (-> & _).
  simpl. apply sublist_length, sublist_filter.
Qed.

Lemma planned_types_length (input : EnsureOntologyInput) (h : Heart) :
  length (planned_types input h).1 ≤ length (mf_types (in_manifest input)).
Proof.
  unfold planned_types.
  destruct (diff_types_spec (mf_types (in_manifest input))
              (snapshot_types (in_space_id input) h) [] []) as (-> & _).
  simpl. apply sublist_length, sublist_filter.
Qed.

Lemma planned_relations_missing (input : EnsureOntologyInput) (h : Heart)
    (d : RelationDefinition) :
  d ∈ (planned_relations input h).1.1 ↔
  d ∈ mf_relations (in_manifest input)
  ∧ _find_matching_relation (rd_name d)
      (snapshot_relations (in_space_id input) h) = None.
Proof.
  unfold planned_relations.
  destruct (diff_relations_spec (mf_relations (in_manifest input))
              (snapshot_relations (in_space_id input) h) [] [] ∅) as (-> & _).
  simpl. rewrite list_elem_of_filter. tauto.
Qed.

Lemma elem_of_snapshot_relations (space_id : string) (h : Heart) (r : RelationRec) :
  r ∈ (relations h).*2 → rr_spaceId r = space_id →
  as_relation r ∈ snapshot_relations space_id h.
Proof.
  intros Hin Hspace. unfold snapshot_relations, list_relations.
  apply list_elem_of_fmap_2, list_elem_of_filter. done.
Qed.

Lemma elem_of_snapshot_types (space_id : string) (h : Heart) (t : TypeRec) :
  t ∈ (types h).*2 → tr_spaceId t = space_id →
  as_type t ∈ snapshot_types space_id h.
Proof.
  intros Hin Hspace. unfold snapshot_types, list_types.
  apply list_elem_of_fmap_2, list_elem_of_filter. done.
Qed.

Lemma snapshot_relations_inv (space_id : string) (h : Heart) (r : AnyTypeRelation) :
  r ∈ snapshot_relations space_id h →
  ∃ r0, r = as_relation r0 ∧ r0 ∈ (relations h).*2 ∧ rr_spaceId r0 = space_id.
Proof.
  unfold snapshot_relations, list_relations.
  intros (r0 & -> & [Hs Hin]%list_elem_of_filter)%list_elem_of_fmap. eauto.
Qed.

Lemma snapshot_types_inv (space_id : string) (h : Heart) (t : AnyTypeType) :
  t ∈ snapshot_types space_id h →
  ∃ t0, t = as_type t0 ∧ t0 ∈ (types h).*2 ∧ tr_spaceId t0 = space_id.
Proof.
  unfold snapshot_types, list_types.
  intros (t0 & -> & [Hs Hin]%list_elem_of_filter)%list_elem_of_fmap. eauto.
Qed.

Lemma Forall2_elem_of_l {A B : Type} (P : A → B → Prop) (l : list A) (k : list B)
    (x : A) :
  Forall2 P l k → x ∈ l → ∃ y, y ∈ k ∧ P x y.
Proof.
  induction 1 as [|a b l k Hab _ IH]; [by intros ?%elem_of_nil|].
  intros [->|Hin]%elem_of_cons.
  - exists b. split; [by left|done].
  - destruct (IH Hin) as (y & ? & ?). exists y. split; [by right|done].
Qed.
Lemma _find_matching_relation_exists (name : string)
    (existing : list AnyTypeRelation) (r : AnyTypeRelation) :
  r ∈ existing → similar name (ar_name r) = true →
  _find_matching_relation name existing ≠ None.
Proof.
  intros Hin Hsim Hnone. apply _find_matching_relation_None in Hnone.
  rewrite Forall_forall in Hnone. specialize (Hnone r Hin). congruence.
Qed.

Lemma _find_matching_type_exists (name : string)
    (existing : list AnyTypeType) (t : AnyTypeType) :
  t ∈ existing → similar name (at_name t) = true →
  _find_matching_type name existing ≠ None.
Proof.
  intros Hin Hsim Hnone. apply _find_matching_type_None in Hnone.
  rewrite Forall_forall in Hnone. specialize (Hnone t Hin). congruence.
Qed.

(** The dictionaries of the backend a real run leaves: those it found,
    followed by one entry for every missing definition. *)
Lemma reconciled_heart_store (input : EnsureOntologyInput) (h : Heart) :
  in_dry_run input = false →
  collision_free h (length (mf_relations (in_manifest input))
                    + length (mf_types (in_manifest input))) →
  ∃ added_relations added_types,
    relations (reconciled_heart input h) = relations h ++ added_relations
    ∧ Forall2 (λ d kv, rr_name kv.2 = rd_name d ∧ rr_spaceId kv.2 = in_space_id input)
        (planned_relations input h).1.1 added_relations
    ∧ types (reconciled_heart input h) = types h ++ added_types
    ∧ Forall2 (λ d kv, tr_name kv.2 = td_name d ∧ tr_spaceId kv.2 = in_space_id input)
        (planned_types input h).1 added_types.
Proof.
  intros Hreal [Hrels Htyps]. unfold reconciled_heart. rewrite Hreal.
  pose proof (planned_relations_length input h) as Hlr.
  pose proof (planned_types_length input h) as Hlt.
  set (mr := (planned_relations input h).1.1) in *.
  set (mt := (planned_types input h).1) in *.
  destruct (post_relations_store (in_space_id input) mr h)
    as (added_r & Hadded_r & Hall_r & Htypes1 & Hdrawn1 & Huuid1).
  { rewrite <- (Nat.add_0_r (drawn h)).
    eapply fresh_subrange; [|exact Hrels]. lia. }
  destruct (post_types_store (in_space_id input) (final_ids input h) mt
              (post_relations (in_space_id input) mr h))
    as (added_t & Hadded_t & Hall_t & Hrels2).
  { rewrite Htypes1, Hdrawn1, Huuid1.
    eapply fresh_subrange; [|exact Htyps]. lia. }
  exists added_r, added_t. rewrite Hrels2, Hadded_r, Hadded_t, Htypes1. done.
Qed.

Lemma relations_still_matched (input : EnsureOntologyInput) (h : Heart)
    (d : RelationDefinition) :
  in_dry_run input = false →
  collision_free h (length (mf_relations (in_manifest input))
                    + length (mf_types (in_manifest input))) →
  d ∈ mf_relations (in_manifest input) →
  _find_matching_relation (rd_name d)
    (snapshot_relations (in_space_id input) (reconciled_heart input h)) ≠ None.
Proof.
  intros Hreal Hfree Hd.
  destruct (reconciled_heart_store input h Hreal Hfree)
    as (added_r & added_t & Hrels & Hall_r & _).
  destruct (_find_matching_relation (rd_name d)
              (snapshot_relations (in_space_id input) h)) as [r|] eqn:Hfind.
  - apply _find_matching_relation_elem in Hfind as [Hin Hsim].
    apply snapshot_relations_inv in Hin as (r0 & -> & Hin & Hspace).
    apply (_find_matching_relation_exists _ _ (as_relation r0)); [|done].
    apply elem_of_snapshot_relations; [|done].
    rewrite Hrels, fmap_app. apply elem_of_app. by left.
  - assert (d ∈ (planned_relations input h).1.1) as Hmissing
      by (by apply planned_relations_missing).
    destruct (Forall2_elem_of_l _ _ _ _ Hall_r Hmissing) as ([k r0] & Hin & Hname & Hspace).
    simpl in Hname, Hspace.
    apply (_find_matching_relation_exists _ _ (as_relation r0)).
    + apply elem_of_snapshot_relations; [|done].
      rewrite Hrels, fmap_app. apply elem_of_app. right.
      apply list_elem_of_fmap. by exists (k, r0).
    + simpl. rewrite Hname. apply similar_refl.
Qed.

Lemma types_still_matched (input : EnsureOntologyInput) (h : Heart)
    (d : TypeDefinition) :
  in_dry_run input = false →
  collision_free h (length (mf_relations (in_manifest input))
                    + length (mf_types (in_manifest input))) →
  d ∈ mf_types (in_manifest input) →
  _find_matching_type (td_name d)
    (snapshot_types (in_space_id input) (reconciled_heart input h)) ≠ None.
Proof.
  intros Hreal Hfree Hd.
  destruct (reconciled_heart_store input h Hreal Hfree)
    as (added_r & added_t & _ & _ & Htyps & Hall_t).
  destruct (_find_matching_type (td_name d)
              (snapshot_types (in_space_id input) h)) as [t|] eqn:Hfind.
  - apply _find_matching_type_Some in Hfind as [Hin Hsim].
    apply snapshot_types_inv in Hin as (t0 & -> & Hin & Hspace).
    apply (_find_matching_type_exists _ _ (as_type t0)); [|done].
    apply elem_of_snapshot_types; [|done].
    rewrite Htyps, fmap_app. apply elem_of_app. by left.
  - assert (d ∈ (planned_types input h).1) as Hmissing
      by (by apply planned_types_missing).
    destruct (Forall2_elem_of_l _ _ _ _ Hall_t Hmissing) as ([k t0] & Hin & Hname & Hspace).
    simpl in Hname, Hspace.
    apply (_find_matching_type_exists _ _ (as_type t0)).
    + apply elem_of_snapshot_types; [|done].
      rewrite Htyps, fmap_app. apply elem_of_app. right.
      apply list_elem_of_fmap. by exists (k, t0).
    + simpl. rewrite Hname. apply similar_refl.
Qed.

Lemma diff_relations_all_matched (defs : list RelationDefinition)
    (existing : list AnyTypeRelation) (missing : list RelationDefinition)
    (skipped : list string) (ids : gmap string string) :
  (∀ d, d ∈ defs → _find_matching_relation (rd_name d) existing ≠ None) →
  (diff_relations defs existing missing skipped ids).1
  = (missing, skipped ++ (rd_name <$> defs)).
Proof.
  revert missing skipped ids. induction defs as [|d defs IH];
    intros missing skipped ids Hall; simpl.
  - by rewrite app_nil_r.
  - destruct (_find_matching_relation (rd_name d) existing) eqn:Hfind.
    + rewrite IH by (intros; apply Hall; by right). by rewrite <- app_assoc.
    + destruct (Hall d); [by left|done].
Qed.

Lemma diff_types_all_matched (defs : list TypeDefinition)
    (existing : list AnyTypeType) (missing : list TypeDefinition)
    (skipped : list string) :
  (∀ d, d ∈ defs → _find_matching_type (td_name d) existing ≠ None) →
  diff_types defs existing missing skipped
  = (missing, skipped ++ (td_name <$> defs)).
Proof.
  revert missing skipped. induction defs as [|d defs IH];
    intros missing skipped Hall; simpl.
  - by rewrite app_nil_r.
  - destruct (_find_matching_type (td_name d) existing) eqn:Hfind.
    + rewrite IH by (intros; apply Hall; by right). by rewrite <- app_assoc.
    + destruct (Hall d); [by left|done].
Qed.

(** C1.  A real run that completes, against a backend whose coming
    identifiers do not collide, followed at once by a second run of the same
    input that completes: the second run creates nothing, reports nothing
    missing, and lists every relation and every type of the manifest as
    existing and skipped. *)
Theorem reconciliation_idempotent (input : EnsureOntologyInput)
    (w w1 w2 : World) (out1 out2 : EnsureOntologyOutput) (t : string) (h : Heart) :
  in_dry_run input = false →
  (_get_client (in_profile_name input) w).1 = Ok t → hearts w !! t = Some h →
  collision_free h (length (mf_relations (in_manifest input))
                    + length (mf_types (in_manifest input))) →
  ensure_ontology input w = (Ok out1, w1) →
  ensure_ontology input w1 = (Ok out2, w2) →
  created_relations out2 = [] ∧ created_types out2 = []
  ∧ diff out2
    = mkOntologyDiff [] [] (rd_name <$> mf_relations (in_manifest input))
        (td_name <$> mf_types (in_manifest input))
  ∧ skipped_relations out2 = rd_name <$> mf_relations (in_manifest input)
  ∧ skipped_types out2 = td_name <$> mf_types (in_manifest input).
Proof.
  intros Hreal Ht Hh Hfree Hrun1 Hrun2.
  apply ensure_ontology_Ok in Hrun1 as (t1 & h1 & ws1 & evs1 & Ht1 & Hh1 & _ & -> & _).
  rewrite Ht in Ht1. injection Ht1 as <-. rewrite Hh in Hh1. injection Hh1 as <-.
  apply ensure_ontology_Ok in Hrun2 as (t2 & h2 & ws2 & evs2 & Ht2 & Hh2 & -> & _).
  rewrite moved_frame, Ht in Ht2. injection Ht2 as <-.
  rewrite hearts_moved in Hh2. injection Hh2 as <-.
  pose proof (diff_relations_all_matched (mf_relations (in_manifest input))
                (snapshot_relations (in_space_id input) (reconciled_heart input h))
                [] [] ∅) as Hrels.
  pose proof (diff_types_all_matched (mf_types (in_manifest input))
                (snapshot_types (in_space_id input) (reconciled_heart input h))
                [] []) as Htyps.
  unfold reconciled, planned_diff, planned_relations, planned_types.
  change (snapshot_relations (in_space_id input) (with_wire ws1 (reconciled_heart input h)))
    with (snapshot_relations (in_space_id input) (reconciled_heart input h)).
  change (snapshot_types (in_space_id input) (with_wire ws1 (reconciled_heart input h)))
    with (snapshot_types (in_space_id input) (reconciled_heart input h)).
  rewrite Hreal.
  specialize (Hrels (λ d Hd, relations_still_matched input h d Hreal Hfree Hd)).
  rewrite Htyps by (intros d Hd; by apply types_still_matched).
  destruct (diff_relations _ _ _ _ _) as [[missing_rels skipped_rels] ids].
  simpl in Hrels. injection Hrels as -> ->.
  by simpl.
Qed.
Lemma reconciliation_idempotent_witness :
  let w := world_with "work" amount_heart in
  let w1 := (ensure_ontology (crm_input false) w).2 in
  ∃ out1 out2,
    (ensure_ontology (crm_input false) w).1 = Ok out1
    ∧ created_relations out1 = ["Email"; "Statuses"]
    ∧ created_types out1 = ["Invoice"]
    ∧ (ensure_ontology (crm_input false) w1).1 = Ok out2
    ∧ created_relations out2 = [] ∧ created_types out2 = []
    ∧ diff out2 = mkOntologyDiff [] [] ["Email"; "Statuses"] ["Invoice"].
Proof.
  intros w w1.
  assert (∃ out1, (ensure_ontology (crm_input false) w).1 = Ok out1
                  ∧ created_relations out1 = ["Email"; "Statuses"]
                  ∧ created_types out1 = ["Invoice"]) as (out1 & Ho1 & Hc1 & Hc2).
  { eexists. split; [vm_compute; reflexivity|]. split; reflexivity. }
  assert (∃ out2, (ensure_ontology (crm_input false) w1).1 = Ok out2) as [out2 Ho2].
  { eexists. vm_compute. reflexivity. }
  exists out1, out2. split; [exact Ho1|]. split; [exact Hc1|]. split; [exact Hc2|].
  split; [exact Ho2|].
  destruct (reconciliation_idempotent (crm_input false) w w1
              (ensure_ontology (crm_input false) w1).2 out1 out2 "work" amount_heart)
    as (H1 & H2 & H3 & _).
  - reflexivity.
  - vm_compute. reflexivity.
  - unfold w, world_with. simpl. by rewrite lookup_insert_eq.
  - split; apply (bool_decide_unpack _); vm_compute; exact I.
  - rewrite <- Ho1. apply surjective_pairing.
  - rewrite <- Ho2. apply surjective_pairing.
  - split; [exact H1|]. split; [exact H2|]. exact H3.
Defined.
(** ** Matching blocks stay inside their range *)

Lemma j2len_get_fit (alo blo i j : nat) (j2len : gmap nat nat) :
  lengths_fit alo blo i j2len →
  j2len_get j2len j ≤ i - alo ∧ j2len_get j2len j ≤ j - blo.
Proof.
  intros Hfit. destruct j as [|j']; simpl; [lia|].
  destruct (j2len !! j') as [k|] eqn:Hk; simpl; [|lia].
  apply Hfit in Hk. lia.
Qed.

Lemma scan_row_within (j2len : gmap nat nat) (alo ahi blo bhi i : nat)
    (js : list nat) (newj2len : gmap nat nat) (best : Match) :
  alo ≤ i → i < ahi →
  lengths_fit alo blo i j2len →
  lengths_fit alo blo (S i) newj2len →
  within alo ahi blo bhi best →
  lengths_fit alo blo (S i) (scan_row j2len blo bhi i js newj2len best).1
  ∧ within alo ahi blo bhi (scan_row j2len blo bhi i js newj2len best).2.
Proof.
  intros Hlo Hhi Hfit. revert newj2len best.
  induction js as [|j js IH]; intros new best Hnew Hbest; simpl; [done|].
  case_bool_decide as Hj1; [by apply IH|].
  case_bool_decide as Hj2; [done|].
  destruct (j2len_get_fit alo blo i j j2len Hfit) as [Hk1 Hk2].
  apply IH.
  - intros j' k'. destruct (decide (j' = j)) as [->|Hne].
    + rewrite lookup_insert_eq. intros [= <-]. lia.
    + rewrite lookup_insert_ne by done. apply Hnew.
  - case_bool_decide; [|done]. unfold within; simpl. lia.
Qed.

Lemma scan_rows_within (a b : list ascii) (alo ahi blo bhi d : nat) :
  ∀ (i : nat) (j2len : gmap nat nat) (best : Match),
    alo ≤ i → i + d ≤ ahi →
    lengths_fit alo blo i j2len →
    within alo ahi blo bhi best →
    within alo ahi blo bhi (scan_rows a b blo bhi (seq i d) j2len best).
Proof.
  induction d as [|d IH]; intros i j2len best Hlo Hhi Hfit Hbest; simpl; [done|].
  destruct (scan_row j2len blo bhi i
              match a !! i with Some x => b2j_get b x | None => [] end ∅ best)
    as [new best'] eqn:Hrow.
  pose proof (scan_row_within j2len alo ahi blo bhi i
                match a !! i with Some x => b2j_get b x | None => [] end ∅ best)
    as Hstep.
  rewrite Hrow in Hstep. simpl in Hstep.
  destruct Hstep as [Hnew Hbest']; [lia|lia|done| |done|].
  { intros j k. by rewrite lookup_empty. }
  apply IH; [lia|lia|done|done].
Qed.

Lemma extend_left_within (a b : list ascii) (alo ahi blo bhi fuel : nat) (m : Match) :
  within alo ahi blo bhi m → within alo ahi blo bhi (extend_left a b alo blo fuel m).
Proof.
  revert m. induction fuel as [|fuel IH]; intros m Hm; simpl; [done|].
  destruct (bool_decide (alo < m_a m) && bool_decide (blo < m_b m)
            && same_elt a b (m_a m - 1) (m_b m - 1)) eqn:Hc; [|done].
  apply andb_true_iff in Hc as [Hc _]. apply andb_true_iff in Hc as [H1 H2].
  apply bool_decide_eq_true in H1, H2.
  apply IH. unfold within in *; simpl. lia.
Qed.

Lemma extend_right_within (a b : list ascii) (alo ahi blo bhi fuel : nat) (m : Match) :
  within alo ahi blo bhi m → within alo ahi blo bhi (extend_right a b ahi bhi fuel m).
Proof.
  revert m. induction fuel as [|fuel IH]; intros m Hm; simpl; [done|].
  destruct (bool_decide (m_a m + m_size m < ahi) && bool_decide (m_b m + m_size m < bhi)
            && same_elt a b (m_a m + m_size m) (m_b m + m_size m)) eqn:Hc; [|done].
  apply andb_true_iff in Hc as [Hc _]. apply andb_true_iff in Hc as [H1 H2].
  apply bool_decide_eq_true in H1, H2.
  apply IH. unfold within in *; simpl. lia.
Qed.

(** The block [find_longest_match] returns lies in the range it was asked
    to search. *)
Lemma find_longest_match_within (a b : list ascii) (alo ahi blo bhi : nat) :
  alo ≤ ahi → blo ≤ bhi →
  within alo ahi blo bhi (find_longest_match a b alo ahi blo bhi).
Proof.
  intros Ha Hb. unfold find_longest_match.
  apply extend_right_within, extend_left_within, scan_rows_within.
  - done.
  - lia.
  - intros j k. by rewrite lookup_empty.
  - unfold within; simpl. lia.
Qed.

(** Sums of sizes are atoms for [lia]. *)
Ltac name_sums :=
  repeat match goal with
         | |- context [sum_list ?l] =>
             let n := fresh "n" in set (n := sum_list l) in *; clearbody n
         | H : context [sum_list ?l] |- _ =>
             let n := fresh "n" in set (n := sum_list l) in *; clearbody n
         end.

Lemma span_a_cons (alo ahi blo bhi : nat) (queue : list (nat * nat * nat * nat)) :
  span_a ((alo, ahi, blo, bhi) :: queue) = (ahi - alo) + span_a queue.
Proof. reflexivity. Qed.

Lemma span_b_cons (alo ahi blo bhi : nat) (queue : list (nat * nat * nat * nat)) :
  span_b ((alo, ahi, blo, bhi) :: queue) = (bhi - blo) + span_b queue.
Proof. reflexivity. Qed.

(** The blocks found never cover more of [a], or of [b], than the blocks
    already found and the ranges still to be searched. *)
Lemma matching_blocks_span (a b : list ascii) (fuel : nat) :
  ∀ (queue : list (nat * nat * nat * nat)) (blocks : list Match),
    well_formed queue →
    sum_list (m_size <$> matching_blocks a b fuel queue blocks)
      ≤ sum_list (m_size <$> blocks) + span_a queue
    ∧ sum_list (m_size <$> matching_blocks a b fuel queue blocks)
      ≤ sum_list (m_size <$> blocks) + span_b queue.
Proof.
  induction fuel as [|fuel IH]; intros queue blocks Hwf; simpl; [name_sums; lia|].
  destruct queue as [|[[[alo ahi] blo] bhi] queue]; [name_sums; lia|].
  apply Forall_cons in Hwf as [[Ha Hb] Hwf]. simpl in Ha, Hb.
  pose proof (find_longest_match_within a b alo ahi blo bhi Ha Hb) as Hx.
  set (x := find_longest_match a b alo ahi blo bhi) in *.
  destruct Hx as (H1 & H2 & H3 & H4).
  rewrite span_a_cons, span_b_cons.
  case_bool_decide as Hk.
  { destruct (IH queue blocks Hwf) as [I1 I2]. name_sums. lia. }
  set (q1 := if bool_decide (alo < m_a x) && bool_decide (blo < m_b x)
             then (alo, m_a x, blo, m_b x) :: queue else queue).
  set (q2 := if bool_decide (m_a x + m_size x < ahi)
                && bool_decide (m_b x + m_size x < bhi)
             then (m_a x + m_size x, ahi, m_b x + m_size x, bhi) :: q1 else q1).
  assert (well_formed q1
          ∧ span_a q1 ≤ (m_a x - alo) + span_a queue
          ∧ span_b q1 ≤ (m_b x - blo) + span_b queue) as (W1 & A1 & B1).
  { unfold q1. destruct (bool_decide (alo < m_a x) && bool_decide (blo < m_b x)).
    - split; [apply Forall_cons; split; [simpl; lia|done]|].
      rewrite span_a_cons, span_b_cons. lia.
    - split; [done|]. lia. }
  assert (well_formed q2
          ∧ span_a q2 ≤ (ahi - (m_a x + m_size x)) + span_a q1
          ∧ span_b q2 ≤ (bhi - (m_b x + m_size x)) + span_b q1) as (W2 & A2 & B2).
  { unfold q2. destruct (bool_decide (m_a x + m_size x < ahi)
                         && bool_decide (m_b x + m_size x < bhi)).
    - split; [apply Forall_cons; split; [simpl; lia|done]|].
      rewrite span_a_cons, span_b_cons. lia.
    - split; [done|]. lia. }
  destruct (IH q2 (blocks ++ [x]) W2) as [I1 I2].
  rewrite fmap_app, sum_list_with_app in I1, I2. simpl in I1, I2. name_sums. lia.
Qed.

Lemma matches_le (a b : list ascii) :
  matches a b ≤ length a ∧ matches a b ≤ length b.
Proof.
  unfold matches, get_matching_blocks.
  destruct (matching_blocks_span a b (2 * length a + 1)
              [(0, length a, 0, length b)] []) as [H1 H2].
  { apply Forall_cons. split; [simpl; lia|done]. }
  rewrite span_a_cons in H1. rewrite span_b_cons in H2.
  change (span_a []) with 0 in H1. change (span_b []) with 0 in H2.
  change (sum_list (m_size <$> [])) with 0 in H1, H2. name_sums. lia.
Qed.

(** ** Lower case *)

Lemma lower_ascii_idem (c : ascii) : lower_ascii (lower_ascii c) = lower_ascii c.
Proof. by destruct c as [[] [] [] [] [] [] [] []]. Qed.

Lemma lower_idem (s : string) : lower (lower s) = lower s.
Proof. induction s as [|c s IH]; simpl; [done|]. by rewrite lower_ascii_idem, IH. Qed.

Lemma length_lower (s : string) : String.length (lower s) = String.length s.
Proof. induction s as [|c s IH]; simpl; [done|]. by rewrite IH. Qed.

Lemma length_list_ascii (s : string) :
  length (String.list_ascii_of_string s) = String.length s.
Proof. induction s as [|c s IH]; simpl; [done|]. by rewrite IH. Qed.

Lemma lower_truthy (s : string) : truthy (lower s) = truthy s.
Proof. by destruct s. Qed.

(** ** The range of the similarity *)

Lemma ratio_le (a b : string) :
  let n := String.length a + String.length b in
  (0 <= ratio a b)%Q
  ∧ (ratio a b <= 1)%Q
  ∧ (ratio a b * inject_Z (Z.of_nat n)
     <= inject_Z (Z.of_nat (2 * (String.length a `min` String.length b))))%Q.
Proof.
  intros n. unfold ratio.
  destruct (matches_le (String.list_ascii_of_string a) (String.list_ascii_of_string b))
    as [Ha Hb].
  rewrite !length_list_ascii in *. fold n.
  set (m := matches _ _) in *.
  case_bool_decide as Hn.
  - split; [done|]. split; [done|]. rewrite Hn. unfold Qle; simpl. lia.
  - assert (Z.pos (Pos.of_nat n) = Z.of_nat n) as Hp by lia.
    split; [|split].
    + unfold Qle; simpl Qnum; simpl Qden. lia.
    + unfold Qle; simpl Qnum; simpl Qden. lia.
    + unfold Qle, Qmult, inject_Z; simpl Qnum; simpl Qden.
      rewrite Pos.mul_1_r, Hp, Z.mul_1_r. nia.
Qed.

(** XID(fuzzy_range).  The similarity [_fuzzy_match] computes is a number
    between 0 and 1.  It is 1 for two names that are equal up to the case
    of their (ASCII) letters, two empty names included, and 0 when exactly
    one of the two names is empty. *)
Theorem _fuzzy_match_range (name1 name2 : string) :
  (0 <= _fuzzy_match name1 name2 <= 1)%Q
  ∧ (lower name1 = lower name2 → (_fuzzy_match name1 name2 == 1)%Q)
  ∧ (name1 ≠ "" → (_fuzzy_match name1 "" == 0)%Q ∧ (_fuzzy_match "" name1 == 0)%Q).
Proof.
  split; [|split].
  - unfold _fuzzy_match.
    destruct (ratio_le (lower name1) (lower name2)) as (H0 & H1 & _). by split.
  - intros Heq. unfold _fuzzy_match. rewrite Heq.
    destruct (ratio_le (lower name2) (lower name2)) as (_ & H1 & _).
    apply Qle_antisym; [done|].
    unfold ratio. rewrite matches_self.
    case_bool_decide as Hn; [apply Qle_refl|].
    unfold Qle; simpl Qnum; simpl Qden. lia.
  - intros Hne.
    assert (String.length name1 ≠ 0) as Hlen by by destruct name1.
    unfold _fuzzy_match. split.
    + destruct (ratio_le (lower name1) (lower "")) as (H0 & _ & H2).
      rewrite !length_lower in H2.
      change (String.length "") with 0 in H2.
      rewrite Nat.min_0_r, Nat.add_0_r in H2.
      change (ratio (lower name1) "") with (ratio (lower name1) (lower "")).
      set (r := ratio _ _) in *. clearbody r. destruct r as [p q].
      apply Qle_antisym; [|done]. revert H2.
      unfold Qle, Qmult, inject_Z; simpl Qnum; simpl Qden. nia.
    + destruct (ratio_le (lower "") (lower name1)) as (H0 & _ & H2).
      rewrite !length_lower in H2.
      change (String.length "") with 0 in H2.
      rewrite Nat.min_0_l, Nat.add_0_l in H2.
      change (ratio "" (lower name1)) with (ratio (lower "") (lower name1)).
      set (r := ratio _ _) in *. clearbody r. destruct r as [p q].
      apply Qle_antisym; [|done]. revert H2.
      unfold Qle, Qmult, inject_Z; simpl Qnum; simpl Qden. nia.
Qed.

(** XID(fuzzy_lengths).  Two names can only match when their lengths are
    comparable: if the similarity reaches the threshold, then 17 times the
    longer length is at most 23 times the shorter one. *)
Theorem similar_lengths (name1 name2 : string) :
  similar name1 name2 = true →
  17 * (String.length name1 `max` String.length name2)
  ≤ 23 * (String.length name1 `min` String.length name2).
Proof.
  intros Hs. apply similar_iff in Hs. unfold _fuzzy_match, FUZZY_MATCH_THRESHOLD in Hs.
  destruct (ratio_le (lower name1) (lower name2)) as (_ & _ & H2).
  rewrite !length_lower in H2.
  set (l1 := String.length name1) in *. set (l2 := String.length name2) in *.
  set (r := ratio _ _) in *. clearbody r. destruct r as [p q].
  revert Hs H2. unfold Qle, Qmult, inject_Z; simpl Qnum; simpl Qden. nia.
Qed.

Lemma similar_lengths_witness :
  similar "Status" "Statuses" = true
  ∧ 17 * (String.length "Status" `max` String.length "Statuses")
    ≤ 23 * (String.length "Status" `min` String.length "Statuses").
Proof.
  split; [by vm_compute|].
  apply (similar_lengths "Status" "Statuses"). by vm_compute.
Defined.
